(** * Habitica To Do Overs: the session controller [ToDoOversData]

    A shallow embedding of [to_do_overs/app_functions/to_do_overs_data.py]
    and the properties of its login, task and tag-synchronisation methods.

    The methods mutate the session object, write to the Django tables
    [Users] and [Tags], talk to the Habitica API and print to the console.
    All four are components of one explicit state, threaded by a small
    state-and-exception monad; a raised Python exception keeps the state
    reached at the point of the raise (Django autocommits each statement). *)

From stdpp Require Import base numbers list strings gmap pretty.

Open Scope Z_scope.

(** ** Python values *)

(** A Python 2 [unicode] object is a sequence of code points.  Tag names are
    kept in that form because the code passes them through a codec.  All the
    other texts (ids, user names, tokens, URLs) are never inspected, only
    stored, compared and sent back; they are [string]s, on which
    [.encode('utf-8')] followed by the database's decoding is the identity. *)
Definition unicode := list N.

(** The [unicode_escape] codec of the Python standard library: backslash is
    doubled, code points from 0x10000 become [\Uxxxxxxxx], from 256
    [\uxxxx], tab, line feed and carriage return [\t], [\n], [\r], the other
    code points outside printable ASCII [\xhh]; the rest is copied. *)
Definition hexdigit (n : N) : N :=
  if (n <? 10)%N then (48 + n)%N else (87 + n)%N.

Fixpoint hex (digits : nat) (ch : N) : unicode :=
  match digits with
  | O => []
  | S d => hex d (ch / 16)%N ++ [hexdigit (ch mod 16)%N]
  end.

Definition escape_char (ch : N) : unicode :=
  if (ch =? 92)%N then [92; 92]%N
  else if (65536 <=? ch)%N then [92; 85]%N ++ hex 8 ch
  else if (256 <=? ch)%N then [92; 117]%N ++ hex 4 ch
  else if (ch =? 9)%N then [92; 116]%N
  else if (ch =? 10)%N then [92; 110]%N
  else if (ch =? 13)%N then [92; 114]%N
  else if ((ch <? 32) || (127 <=? ch))%N then [92; 120]%N ++ hex 2 ch
  else [ch].

Definition unicode_escape (s : unicode) : unicode :=
  concat (escape_char <$> s).

(** The code points of a text written as a [string] literal. *)
Definition u (s : string) : unicode :=
  Ascii.N_of_ascii <$> String.list_ascii_of_string s.

(** Printable ASCII other than the backslash: what the codec copies. *)
Definition plain (ch : N) : Prop := (32 <= ch < 127)%N ∧ ch ≠ 92%N.

(** ** Exceptions *)

Inductive exception :=
| DoesNotExist
| MultipleObjectsReturned
| OverflowError.

Inductive outcome (A : Type) :=
| Returned (a : A)
| Raised (e : exception).
Arguments Returned {A} a.
Arguments Raised {A} e.

(** ** Dates

    [datetime] values are naive local timestamps, counted in microseconds
    from 0001-01-01T00:00:00.  The library holds the years 1 to 9999, the
    days of ordinal 1 to [MAXORDINAL], and a [timedelta] holds at most
    999999999 days either way; past these it raises [OverflowError]. *)
Definition datetime := Z.

Definition MAXORDINAL : Z := 3652059.

(** [timedelta(days=n)], in microseconds *)
Definition timedelta (days : Z) : outcome Z :=
  if decide (-999999999 <= days <= 999999999)
  then Returned (days * 86400000000)
  else Raised OverflowError.

(** [datetime.__add__]: the sum has to be a [datetime] again. *)
Definition datetime_add (d : datetime) (delta : Z) : outcome datetime :=
  if decide (0 <= d + delta < MAXORDINAL * 86400000000)
  then Returned (d + delta)
  else Raised OverflowError.

(** [now + timedelta(days=n)] *)
Definition plus_days (now : datetime) (days : Z) : outcome datetime :=
  match timedelta days with
  | Returned delta => datetime_add now delta
  | Raised e => Raised e
  end.
Arguments plus_days : simpl never.

(** ** The monad *)

(** ** The session object *)

Record ToDoOversData := {
  username : string;
  hab_user_id : string;
  api_token : string;
  logged_in : bool;
  tags : list string;
  task_name : string;
  task_days : Z;
  task_delay : Z;
  task_id : string;
  priority : string;
  notes : string;
  return_code : Z
}.

(** [__init__] *)
Definition init : ToDoOversData := {|
  username := ""; hab_user_id := ""; api_token := ""; logged_in := false;
  tags := []; task_name := ""; task_days := 0; task_delay := 0;
  task_id := ""; priority := ""; notes := ""; return_code := 0
|}.

(** ** The Django tables

    A table is the list of its rows in insertion order, and no uniqueness of
    [user_id] or [tag_id] is built in: the manager methods below behave as
    Django's do on any table. *)

(** The methods of a model's manager [objects] that the controller calls,
    for a lookup on one column [key]. *)
Module Manager.
Section Lookup.
Context {row : Type} (key : row → string).

(** [objects.filter(key=k)] *)
Definition matching (k : string) (tbl : list row) : list row :=
  filter (λ r, key r = k) tbl.

(** [objects.get(key=k)] *)
Definition get (k : string) (tbl : list row) : outcome row :=
  match matching k tbl with
  | [] => Raised DoesNotExist
  | [r] => Returned r
  | _ => Raised MultipleObjectsReturned
  end.

(** Setting the [defaults] on the rows of key [k]. *)
Definition update (k : string) (defaults : row → row) (r : row) : row :=
  if decide (key r = k) then defaults r else r.

(** [objects.update_or_create(key=k, defaults={...})]: [get] the row;
    when there is none, create [created]; when there is one, set the
    defaults on it and save it. *)
Definition update_or_create (k : string) (created : row)
    (defaults : row → row) (tbl : list row) : outcome (list row) :=
  match matching k tbl with
  | [] => Returned (tbl ++ [created])
  | [_] => Returned (update k defaults <$> tbl)
  | _ => Raised MultipleObjectsReturned
  end.

(** [objects.filter(key=k).delete()] *)
Definition delete (k : string) (tbl : list row) : list row :=
  filter (λ r, key r ≠ k) tbl.
End Lookup.
End Manager.

Module Users.
(** Modelled from the spec: [models.py], which declares the model [Users],
    is not among the sources.  The spec's UserRecord holds the user id, the
    user name and the encrypted API token; the columns bear the names under
    which the controller passes them to the manager. *)
Record row := { user_id : string; api_key : string; username : string }.

(** [Users.objects.get(user_id=k)] *)
Definition get (k : string) (tbl : list row) : outcome row :=
  Manager.get user_id k tbl.

Definition defaults (key name : string) (r : row) : row :=
  {| user_id := user_id r; api_key := key; username := name |}.

(** [Users.objects.update_or_create(user_id=k,
      defaults={'api_key': key, 'username': name})] *)
Definition update_or_create (k key name : string) (tbl : list row)
  : outcome (list row) :=
  Manager.update_or_create user_id k
    {| user_id := k; api_key := key; username := name |}
    (defaults key name) tbl.
End Users.

Module Tags.
(** Modelled from the spec: [models.py], which declares the model [Tags],
    is not among the sources.  The spec's TagRecord holds the tag id, a
    reference to the owning UserRecord and the text; the reference
    [tag_owner] is represented by the [user_id] of the row it points to. *)
Record row := { tag_id : string; tag_owner : string; tag_text : unicode }.

(** [Tags.objects.filter(tag_owner=user)] *)
Definition owned_by (user : Users.row) (tbl : list row) : list row :=
  Manager.matching tag_owner (Users.user_id user) tbl.

Definition defaults (owner : string) (text : unicode) (r : row) : row :=
  {| tag_id := tag_id r; tag_owner := owner; tag_text := text |}.

(** [Tags.objects.update_or_create(tag_id=k,
      defaults={'tag_owner': user, 'tag_text': text})] *)
Definition update_or_create (k : string) (user : Users.row) (text : unicode)
    (tbl : list row) : outcome (list row) :=
  Manager.update_or_create tag_id k
    {| tag_id := k; tag_owner := Users.user_id user; tag_text := text |}
    (defaults (Users.user_id user) text) tbl.

(** [Tags.objects.filter(tag_id=k).delete()] *)
Definition delete (k : string) (tbl : list row) : list row :=
  Manager.delete tag_id k tbl.
End Tags.

(** ** The Habitica API

    A request is what [requests.get/post/put] is given; the answer carries
    the status code and the decoded [data] object of the JSON body, typed by
    the endpoint.  The server is any function from requests to answers. *)

Inductive verb := GET | POST | PUT.

Inductive value :=
| Str (s : string)
| Strs (l : list string).

Record request := {
  method : verb;
  url : string;
  headers : list (string * string);
  data : list (string * value)
}.

Record response (A : Type) := { status_code : Z; json_data : A }.
Arguments status_code {A} _.
Arguments json_data {A} _.

Record login_json := { data_id : string; data_apiToken : string; data_username : string }.
Record user_json := { data_profile_name : string }.
Record task_json := { task_data_id : string }.
Record tag_json := { json_id : string; json_name : unicode }.

Record habitica := {
  api_user_auth_local_login : request → response login_json;
  api_user : request → response user_json;
  api_tasks_user : request → response task_json;
  api_tasks : request → response task_json;
  (** [data] of [GET /tags]: a list, or [None] for JSON null *)
  api_tags : request → response (option (list tag_json))
}.

(** The [data=] dictionary of a request is an association list; a field is
    present when a pair with its key is. *)
Fixpoint field (k : string) (d : list (string * value)) : option value :=
  match d with
  | [] => None
  | (k', v) :: d' => if decide (k' = k) then Some v else field k d'
  end.

(** ** The state threaded through the methods *)

Record state := {
  self : ToDoOversData;
  users : list Users.row;
  tags_table : list Tags.row;
  sent : list request;        (* the requests issued so far, oldest first *)
  stdout : list string;       (* the lines printed so far *)
  clock : datetime            (* what [datetime.now()] reads *)
}.

Definition M (A : Type) : Type := state → outcome A * state.

#[global] Instance M_ret : MRet M := λ A a st, (Returned a, st).

#[global] Instance M_bind : MBind M := λ A B f m st,
  match m st with
  | (Returned a, st') => f a st'
  | (Raised e, st') => (Raised e, st')
  end.

(** Assignments to the attributes of [self] that the methods write. *)
Definition set_username (v : string) (s : ToDoOversData) : ToDoOversData :=
  {| username := v; hab_user_id := hab_user_id s; api_token := api_token s;
     logged_in := logged_in s; tags := tags s; task_name := task_name s;
     task_days := task_days s; task_delay := task_delay s;
     task_id := task_id s; priority := priority s; notes := notes s;
     return_code := return_code s |}.

Definition set_hab_user_id (v : string) (s : ToDoOversData) : ToDoOversData :=
  {| username := username s; hab_user_id := v; api_token := api_token s;
     logged_in := logged_in s; tags := tags s; task_name := task_name s;
     task_days := task_days s; task_delay := task_delay s;
     task_id := task_id s; priority := priority s; notes := notes s;
     return_code := return_code s |}.

Definition set_api_token (v : string) (s : ToDoOversData) : ToDoOversData :=
  {| username := username s; hab_user_id := hab_user_id s; api_token := v;
     logged_in := logged_in s; tags := tags s; task_name := task_name s;
     task_days := task_days s; task_delay := task_delay s;
     task_id := task_id s; priority := priority s; notes := notes s;
     return_code := return_code s |}.

Definition set_logged_in (v : bool) (s : ToDoOversData) : ToDoOversData :=
  {| username := username s; hab_user_id := hab_user_id s;
     api_token := api_token s; logged_in := v; tags := tags s;
     task_name := task_name s; task_days := task_days s;
     task_delay := task_delay s; task_id := task_id s;
     priority := priority s; notes := notes s;
     return_code := return_code s |}.

Definition set_task_id (v : string) (s : ToDoOversData) : ToDoOversData :=
  {| username := username s; hab_user_id := hab_user_id s;
     api_token := api_token s; logged_in := logged_in s; tags := tags s;
     task_name := task_name s; task_days := task_days s;
     task_delay := task_delay s; task_id := v; priority := priority s;
     notes := notes s; return_code := return_code s |}.

Definition set_return_code (v : Z) (s : ToDoOversData) : ToDoOversData :=
  {| username := username s; hab_user_id := hab_user_id s;
     api_token := api_token s; logged_in := logged_in s; tags := tags s;
     task_name := task_name s; task_days := task_days s;
     task_delay := task_delay s; task_id := task_id s;
     priority := priority s; notes := notes s; return_code := v |}.

(** The primitive effects. *)
Definition get_self : M ToDoOversData := λ st, (Returned (self st), st).

Definition assign (f : ToDoOversData → ToDoOversData) : M unit := λ st,
  (Returned tt,
   {| self := f (self st); users := users st; tags_table := tags_table st;
      sent := sent st; stdout := stdout st; clock := clock st |}).

Definition with_users (tbl : list Users.row) (st : state) : state :=
  {| self := self st; users := tbl; tags_table := tags_table st;
     sent := sent st; stdout := stdout st; clock := clock st |}.

Definition with_tags (tbl : list Tags.row) (st : state) : state :=
  {| self := self st; users := users st; tags_table := tbl;
     sent := sent st; stdout := stdout st; clock := clock st |}.

Definition Users_objects_get (k : string) : M Users.row := λ st,
  (Users.get k (users st), st).

Definition Users_objects_update_or_create (k key name : string) : M unit :=
  λ st, match Users.update_or_create k key name (users st) with
        | Returned tbl => (Returned tt, with_users tbl st)
        | Raised e => (Raised e, st)
        end.

Definition Tags_objects_filter (user : Users.row) : M (list Tags.row) := λ st,
  (Returned (Tags.owned_by user (tags_table st)), st).

Definition Tags_objects_update_or_create (k : string) (user : Users.row)
    (text : unicode) : M unit :=
  λ st, match Tags.update_or_create k user text (tags_table st) with
        | Returned tbl => (Returned tt, with_tags tbl st)
        | Raised e => (Raised e, st)
        end.

Definition Tags_objects_delete (k : string) : M unit := λ st,
  (Returned tt, with_tags (Tags.delete k (tags_table st)) st).

Definition print (line : string) : M unit := λ st,
  (Returned tt,
   {| self := self st; users := users st; tags_table := tags_table st;
      sent := sent st; stdout := stdout st ++ [line]; clock := clock st |}).

Definition datetime_now : M datetime := λ st, (Returned (clock st), st).

(** An expression of the library that returns or raises. *)
Definition evaluate {A} (o : outcome A) : M A := λ st, (o, st).

(** [requests.get], [requests.post], [requests.put]: the request goes out
    and the server's answer comes back. *)
Definition requests {A} (server : request → response A) (r : request)
  : M (response A) := λ st,
  (Returned (server r),
   {| self := self st; users := users st; tags_table := tags_table st;
      sent := sent st ++ [r]; stdout := stdout st; clock := clock st |}).

(** What [get_user_tags] returns: the [data] list, or [False]. *)
Inductive tags_or_False :=
| Data (l : list tag_json)
| False_.

(** ** The methods of [ToDoOversData] *)

Section Methods.
(** [cipher_functions] is not part of the sources at hand: the two
    functions and the default key file are parameters. *)
Variable encrypt_text : string → string.
Variable decrypt_text : string → string → string.
Variable CIPHER_FILE : string.
(** [datetime.isoformat] *)
Variable isoformat : datetime → string.
(** The remote system. *)
Variable api : habitica.

Definition login (password : string) : M bool :=
  s ← get_self;
  req ← requests (api_user_auth_local_login api)
    {| method := POST;
       url := "https://habitica.com/api/v3/user/auth/local/login";
       headers := [];
       data := [("username", Str (username s)); ("password", Str password)] |};
  assign (set_return_code (status_code req));;
  if decide (status_code req = 200) then
    let req_json := json_data req in
    assign (set_hab_user_id (data_id req_json));;
    assign (set_api_token (encrypt_text (data_apiToken req_json)));;
    assign (set_username (data_username req_json));;
    s ← get_self;
    Users_objects_update_or_create (hab_user_id s) (api_token s) (username s);;
    assign (set_logged_in true);;
    mret true
  else
    mret false.

Definition login_api_key : M bool :=
  s ← get_self;
  let headers := [("x-api-user", hab_user_id s);
                  ("x-api-key", decrypt_text (api_token s) CIPHER_FILE);
                  ("Content-Type", "application/json")] in
  req ← requests (api_user api)
    {| method := GET; url := "https://habitica.com/api/v3/user";
       headers := headers; data := [] |};
  assign (set_return_code (status_code req));;
  if decide (status_code req = 200) then
    let req_json := json_data req in
    assign (set_username (data_profile_name req_json));;
    s ← get_self;
    Users_objects_update_or_create (hab_user_id s) (api_token s) (username s);;
    assign (set_logged_in true);;
    mret true
  else
    mret false.

Definition create_task (cipher_file_path : string) : M bool :=
  s ← get_self;
  let headers := [("x-api-user", hab_user_id s);
                  ("x-api-key", decrypt_text (api_token s) cipher_file_path)] in
  if decide (task_days s > 0) then
    now ← datetime_now;
    due_date ← evaluate (plus_days now (task_days s));
    let due_date := isoformat due_date in
    req ← requests (api_tasks_user api)
      {| method := POST; url := "https://habitica.com/api/v3/tasks/user";
         headers := headers;
         data := [("text", Str (task_name s)); ("type", Str "todo");
                  ("notes", Str (notes s)); ("date", Str due_date);
                  ("priority", Str (priority s)); ("tags", Strs (tags s))] |};
    assign (set_return_code (status_code req));;
    if decide (status_code req = 201) then
      let req_json := json_data req in
      assign (set_task_id (task_data_id req_json));;
      mret true
    else mret false
  else
    req ← requests (api_tasks_user api)
      {| method := POST; url := "https://habitica.com/api/v3/tasks/user";
         headers := headers;
         data := [("text", Str (task_name s)); ("type", Str "todo");
                  ("notes", Str (notes s));
                  ("priority", Str (priority s)); ("tags", Strs (tags s))] |};
    assign (set_return_code (status_code req));;
    if decide (status_code req = 201) then
      let req_json := json_data req in
      assign (set_task_id (task_data_id req_json));;
      mret true
    else mret false.

Definition edit_task : M bool :=
  s ← get_self;
  let headers := [("x-api-user", hab_user_id s);
                  ("x-api-key", decrypt_text (api_token s) CIPHER_FILE)] in
  let url := "https://habitica.com/api/v3/tasks/" +:+ task_id s in
  if decide (task_days s > 0) then
    now ← datetime_now;
    due_date ← evaluate (plus_days now (task_days s));
    let due_date := isoformat due_date in
    req ← requests (api_tasks api)
      {| method := PUT; url := url; headers := headers;
         data := [("text", Str (task_name s)); ("notes", Str (notes s));
                  ("date", Str due_date);
                  ("priority", Str (priority s)); ("tags", Strs (tags s))] |};
    assign (set_return_code (status_code req));;
    if decide (status_code req = 200) then
      let req_json := json_data req in
      assign (set_task_id (task_data_id req_json));;
      mret true
    else mret false
  else
    req ← requests (api_tasks api)
      {| method := PUT; url := url; headers := headers;
         data := [("text", Str (task_name s)); ("notes", Str (notes s));
                  ("priority", Str (priority s)); ("tags", Strs (tags s))] |};
    assign (set_return_code (status_code req));;
    if decide (status_code req = 200) then
      let req_json := json_data req in
      assign (set_task_id (task_data_id req_json));;
      mret true
    else
      mret false.

(** [current_tag_ids.remove(x)]: the first occurrence goes. *)
Fixpoint remove (x : string) (l : list string) : list string :=
  match l with
  | [] => []
  | y :: l' => if decide (y = x) then l' else y :: remove x l'
  end.

(** The loop "Add/update tags in database". *)
Fixpoint add_update_tags (user : Users.row) (tags_json : list tag_json)
    (current_tag_ids : list string) : M (list string) :=
  match tags_json with
  | [] => mret current_tag_ids
  | tag_json :: rest =>
      let tag_text := json_name tag_json in
      let tag_text := unicode_escape tag_text in
      Tags_objects_update_or_create (json_id tag_json) user tag_text;;
      let current_tag_ids :=
        if decide (json_id tag_json ∈ current_tag_ids)
        then remove (json_id tag_json) current_tag_ids
        else current_tag_ids in
      add_update_tags user rest current_tag_ids
  end.

(** The loop over the leftover tags. *)
Fixpoint delete_leftover (current_tag_ids : list string) : M unit :=
  match current_tag_ids with
  | [] => mret tt
  | leftover_tag :: rest =>
      print ("deleting tag " +:+ leftover_tag);;
      Tags_objects_delete leftover_tag;;
      delete_leftover rest
  end.

Definition get_user_tags (cipher_file_path : string) : M tags_or_False :=
  s ← get_self;
  let headers := [("x-api-user", hab_user_id s);
                  ("x-api-key", decrypt_text (api_token s) cipher_file_path)] in
  req ← requests (api_tags api)
    {| method := GET; url := "https://habitica.com/api/v3/tags";
       headers := headers; data := [] |};
  assign (set_return_code (status_code req));;
  if decide (status_code req = 200) then
    let req_json := json_data req in
    s ← get_self;
    user ← Users_objects_get (hab_user_id s);
    current_tags ← Tags_objects_filter user;
    let current_tag_ids := Tags.tag_id <$> current_tags in
    match req_json with
    | Some (tag_json :: rest) =>
        current_tag_ids ←
          add_update_tags user (tag_json :: rest) current_tag_ids;
        delete_leftover current_tag_ids;;
        mret (Data (tag_json :: rest))
    | _ => mret False_
    end
  else
    mret False_.

End Methods.

(** ** Reading the tables *)

(** The row that the loop of [get_user_tags] writes for a remote tag. *)
Definition tag_row (uid : string) (t : tag_json) : Tags.row :=
  {| Tags.tag_id := json_id t; Tags.tag_owner := uid;
     Tags.tag_text := unicode_escape (json_name t) |}.

(** The ids of the tags that a user owns, and those of a remote list. *)
Definition local_tag_ids (uid : string) (st : state) : gset string :=
  list_to_set (Tags.tag_id <$> Manager.matching Tags.tag_owner uid (tags_table st)).

Definition remote_tag_ids (l : list tag_json) : gset string :=
  list_to_set (json_id <$> l).

(** The two loops of [get_user_tags] seen from the table alone: whether the
    first loop runs to its end and the table it leaves (the one reached at
    the raise otherwise), the ids it leaves in [current_tag_ids], and the
    table after the deletions. *)
Fixpoint upsert_all (user : Users.row) (tags_json : list tag_json)
    (tbl : list Tags.row) : bool * list Tags.row :=
  match tags_json with
  | [] => (true, tbl)
  | tag_json :: rest =>
      match Tags.update_or_create (json_id tag_json) user
              (unicode_escape (json_name tag_json)) tbl with
      | Returned tbl' => upsert_all user rest tbl'
      | Raised _ => (false, tbl)
      end
  end.

Definition unmatched (tags_json : list tag_json) (current_tag_ids : list string)
  : list string :=
  foldl (λ ids tag_json,
           if decide (json_id tag_json ∈ ids)
           then remove (json_id tag_json) ids else ids)
        current_tag_ids tags_json.

Definition without (ids : list string) (tbl : list Tags.row) : list Tags.row :=
  filter (λ r, Tags.tag_id r ∉ ids) tbl.

(** What a sequence of updates in place does to one row. *)
Definition settle (user : Users.row) (tags_json : list tag_json) (r : Tags.row)
  : Tags.row :=
  foldl (λ r tag_json,
           Manager.update Tags.tag_id (json_id tag_json)
             (Tags.defaults (Users.user_id user)
                (unicode_escape (json_name tag_json))) r)
        r tags_json.

(** The ids that a list holds no more often than the table has rows. *)
Definition covered (tbl : list Tags.row) (ids : list string) : Prop :=
  ∀ x, (length (filter (λ y, y = x) ids)
        ≤ length (Manager.matching Tags.tag_id x tbl))%nat.

(** The request that [get_user_tags] sends from a session. *)
Definition get_user_tags_request (decrypt_text : string → string → string)
    (cipher_file_path : string) (s : ToDoOversData) : request :=
  {| method := GET; url := "https://habitica.com/api/v3/tags";
     headers := [("x-api-user", hab_user_id s);
                 ("x-api-key", decrypt_text (api_token s) cipher_file_path)];
     data := [] |}.

(** The due date that lines 129-131 and 180-182 put in the request: none
    unless [task_days] is above 0. *)
Definition due_date (isoformat : datetime → string) (now : datetime)
    (days : Z) : outcome (option string) :=
  if decide (days > 0) then
    match plus_days now days with
    | Returned d => Returned (Some (isoformat d))
    | Raised e => Raised e
    end
  else Returned None.

(** ** A small world to run the methods in

    A cipher that leaves the text as it is, a clock rendering that prints
    the count of microseconds, a server that answers every request with
    one status code, and a session of user [u1]. *)

Definition no_encrypt (text : string) : string := text.
Definition no_decrypt (text cipher_file_path : string) : string := text.

Definition count_isoformat (d : datetime) : string := pretty d.

Definition server (code : Z) (remote_tags : option (list tag_json)) : habitica :=
  {| api_user_auth_local_login := λ _,
       {| status_code := code;
          json_data := {| data_id := "u1"; data_apiToken := "token";
                          data_username := "kirska" |} |};
     api_user := λ _,
       {| status_code := code;
          json_data := {| data_profile_name := "Kirska" |} |};
     api_tasks_user := λ _,
       {| status_code := code; json_data := {| task_data_id := "task-1" |} |};
     api_tasks := λ _,
       {| status_code := code; json_data := {| task_data_id := "task-2" |} |};
     api_tags := λ _, {| status_code := code; json_data := remote_tags |} |}.

Definition session_u1 (days : Z) : ToDoOversData :=
  {| username := "kirska"; hab_user_id := "u1"; api_token := "token";
     logged_in := true; tags := []; task_name := "Water the plants";
     task_days := days; task_delay := 0; task_id := ""; priority := "1";
     notes := ""; return_code := 0 |}.

(** A store where [u1] owns the tags 2 and 3. *)
Definition store_u1 (days : Z) : state :=
  {| self := session_u1 days;
     users := [ {| Users.user_id := "u1"; Users.api_key := "token";
                   Users.username := "kirska" |} ];
     tags_table := [ {| Tags.tag_id := "2"; Tags.tag_owner := "u1";
                        Tags.tag_text := u "work" |};
                     {| Tags.tag_id := "3"; Tags.tag_owner := "u1";
                        Tags.tag_text := u "garden" |} ];
     sent := []; stdout := []; clock := 1000 |}.

(** The same session over a [Users] table that has lost its row. *)
Definition store_without_user : state := with_users [] (store_u1 0).

(** A session that has not logged in yet. *)
Definition fresh_store : state :=
  {| self := set_username "kirska" init; users := []; tags_table := [];
     sent := []; stdout := []; clock := 1000 |}.

Definition home_and_work : list tag_json :=
  [ {| json_id := "1"; json_name := u "home" |};
    {| json_id := "2"; json_name := u "work" |} ].

(** A tag called café. *)
Definition cafe : tag_json :=
  {| json_id := "1"; json_name := u "caf" ++ [233%N] |}.

(** ** Well-kept stores, printable texts, more of the small world *)

(** No two rows of a table share their key. *)
Definition unique_user_ids (st : state) : Prop :=
  NoDup (Users.user_id <$> users st).

Definition unique_tag_ids (st : state) : Prop :=
  NoDup (Tags.tag_id <$> tags_table st).

(** Printable ASCII. *)
Definition printable (ch : N) : Prop := (32 <= ch < 127)%N.

(** The line that the second loop of [get_user_tags] prints for a tag. *)
Definition deleting (leftover_tag : string) : string :=
  "deleting tag " +:+ leftover_tag.

(** A [Users] table that holds the row of [u1] twice. *)
Definition store_two_rows : state :=
  with_users (users (store_u1 0) ++ users (store_u1 0)) fresh_store.

(** A store where [u1] owns the tags 2 and 3 and [u2] the tags 1 and 4. *)
Definition shared_store : state :=
  with_tags (tags_table (store_u1 0)
             ++ [ {| Tags.tag_id := "1"; Tags.tag_owner := "u2";
                     Tags.tag_text := u "home" |};
                  {| Tags.tag_id := "4"; Tags.tag_owner := "u2";
                     Tags.tag_text := u "errands" |} ])
            (store_u1 0).

(** A store where the tag id 5 is held by two rows, and a remote list
    that names it after a new tag. *)
Definition store_duplicate_tag : state :=
  with_tags (tags_table (store_u1 0)
             ++ [ {| Tags.tag_id := "5"; Tags.tag_owner := "u2";
                     Tags.tag_text := u "shop" |};
                  {| Tags.tag_id := "5"; Tags.tag_owner := "u2";
                     Tags.tag_text := u "shopping" |} ])
            (store_u1 0).

Definition home_and_five : list tag_json :=
  [ {| json_id := "1"; json_name := u "home" |};
    {| json_id := "5"; json_name := u "shop" |} ].

(** The request that [login] sends from a session. *)
Definition login_request (s : ToDoOversData) (password : string) : request :=
  {| method := POST;
     url := "https://habitica.com/api/v3/user/auth/local/login";
     headers := [];
     data := [("username", Str (username s)); ("password", Str password)] |}.

(** The [headers=] dictionary of a request, read by key. *)
Fixpoint header (k : string) (hs : list (string * string)) : option string :=
  match hs with
  | [] => None
  | (k', v) :: hs' => if decide (k' = k) then Some v else header k hs'
  end.

(** A Unicode code point. *)
Definition code_point (ch : N) : Prop := (ch < 1114112)%N.

(** The shapes of [escape_char]. *)
Inductive escaped (ch : N) : unicode → Prop :=
| escaped_backslash : ch = 92%N → escaped ch [92; 92]%N
| escaped_U : (65536 <= ch)%N → escaped ch (92 :: 85 :: hex 8 ch)%N
| escaped_u : (256 <= ch < 65536)%N → escaped ch (92 :: 117 :: hex 4 ch)%N
| escaped_t : ch = 9%N → escaped ch [92; 116]%N
| escaped_n : ch = 10%N → escaped ch [92; 110]%N
| escaped_r : ch = 13%N → escaped ch [92; 114]%N
| escaped_x : (ch < 256)%N → escaped ch (92 :: 120 :: hex 2 ch)%N
| escaped_plain : ch ≠ 92%N → escaped ch [ch].

(** The state with another session object. *)
Definition with_self (s : ToDoOversData) (st : state) : state :=
  {| self := s; users := users st; tags_table := tags_table st;
     sent := sent st; stdout := stdout st; clock := clock st |}.

(** A cipher that answers otherwise than [no_encrypt]. *)
Definition encrypt_again (text : string) : string := "again:" +:+ text.

(** Two remote tags with one name. *)
Definition two_homes : list tag_json :=
  [ {| json_id := "1"; json_name := u "home" |};
    {| json_id := "7"; json_name := u "home" |} ].

(** ** Running the monad in proofs *)

Ltac unfold_effects :=
  unfold mbind, M_bind, mret, M_ret, get_self, assign, requests, print,
    datetime_now, evaluate, Users_objects_get, Users_objects_update_or_create,
    Tags_objects_filter, Tags_objects_update_or_create, Tags_objects_delete.

Ltac run := unfold_effects; cbn [fst snd self users tags_table sent stdout clock].

(** ** The task requests: due date, status codes, task id *)

Section Tasks.
Variable decrypt_text : string → string → string.
Variable CIPHER_FILE : string.
Variable isoformat : datetime → string.
Variable api : habitica.

(** [now + timedelta(days=n)] returns within the two ranges of the library
    and raises [OverflowError] outside. *)
Lemma plus_days_Returned now days d :
  plus_days now days = Returned d ↔
  (-999999999 <= days <= 999999999
   ∧ 0 <= now + days * 86400000000 < MAXORDINAL * 86400000000)
  ∧ d = now + days * 86400000000.
Proof.
  unfold plus_days, timedelta, datetime_add.
  repeat case_decide; split; try done; try (intros [= <-]; done);
    intros [? ->]; tauto.
Qed.

Lemma plus_days_Raised now days e :
  plus_days now days = Raised e → e = OverflowError.
Proof.
  unfold plus_days, timedelta, datetime_add.
  repeat case_decide; congruence.
Qed.

Lemma due_date_Returned now days date :
  due_date isoformat now days = Returned date →
  if decide (days > 0)
  then ∃ d, plus_days now days = Returned d ∧ date = Some (isoformat d)
  else date = None.
Proof.
  unfold due_date. case_decide; [|congruence].
  destruct (plus_days now days) as [d|e]; [|done].
  intros [= <-]. eauto.
Qed.

Lemma due_date_Raised now days e :
  due_date isoformat now days = Raised e →
  days > 0 ∧ e = OverflowError ∧ plus_days now days = Raised OverflowError.
Proof.
  unfold due_date. case_decide; [|done].
  destruct (plus_days now days) as [d|e'] eqn:Hplus; [done|].
  intros [= <-]. apply plus_days_Raised in Hplus as Hplus'. by subst.
Qed.

(** When the due date cannot be computed, the method stops before its
    request and nothing has changed. *)
Lemma create_task_raises cipher st e :
  due_date isoformat (clock st) (task_days (self st)) = Raised e →
  create_task decrypt_text isoformat api cipher st = (Raised e, st).
Proof.
  unfold due_date, create_task. run. case_decide; [|done]. run.
  by destruct (plus_days _ _); [|intros [= <-]].
Qed.

Lemma edit_task_raises st e :
  due_date isoformat (clock st) (task_days (self st)) = Raised e →
  edit_task decrypt_text CIPHER_FILE isoformat api st = (Raised e, st).
Proof.
  unfold due_date, edit_task. run. case_decide; [|done]. run.
  by destruct (plus_days _ _); [|intros [= <-]].
Qed.

(** Otherwise it issues exactly one request, records the status, and
    returns whether the status is the one it waits for. *)
Lemma create_task_sends cipher st date :
  due_date isoformat (clock st) (task_days (self st)) = Returned date →
  let run := create_task decrypt_text isoformat api cipher st in
  ∃ r, sent run.2 = sent st ++ [r]
    ∧ method r = POST
    ∧ url r = "https://habitica.com/api/v3/tasks/user"
    ∧ headers r = [("x-api-user", hab_user_id (self st));
                   ("x-api-key", decrypt_text (api_token (self st)) cipher)]
    ∧ field "date" (data r) = Str <$> date
    ∧ let req := api_tasks_user api r in
      run.1 = Returned (bool_decide (status_code req = 201))
      ∧ self run.2
        = (if decide (status_code req = 201)
           then set_task_id (task_data_id (json_data req))
                  (set_return_code (status_code req) (self st))
           else set_return_code (status_code req) (self st))
      ∧ users run.2 = users st ∧ tags_table run.2 = tags_table st
      ∧ stdout run.2 = stdout st ∧ clock run.2 = clock st.
Proof.
  unfold due_date, create_task. run. case_decide.
  - run. destruct (plus_days _ _) as [d|e]; [|done]. intros [= <-].
    run. case_decide; cbn; eexists; (split; [done|]);
      rewrite ?bool_decide_eq_true_2, ?bool_decide_eq_false_2,
        ?decide_True, ?decide_False by done; done.
  - intros [= <-].
    run. case_decide; cbn; eexists; (split; [done|]);
      rewrite ?bool_decide_eq_true_2, ?bool_decide_eq_false_2,
        ?decide_True, ?decide_False by done; done.
Qed.

Lemma edit_task_sends st date :
  due_date isoformat (clock st) (task_days (self st)) = Returned date →
  let run := edit_task decrypt_text CIPHER_FILE isoformat api st in
  ∃ r, sent run.2 = sent st ++ [r]
    ∧ method r = PUT
    ∧ url r = "https://habitica.com/api/v3/tasks/" +:+ task_id (self st)
    ∧ headers r = [("x-api-user", hab_user_id (self st));
                   ("x-api-key", decrypt_text (api_token (self st)) CIPHER_FILE)]
    ∧ field "date" (data r) = Str <$> date
    ∧ let req := api_tasks api r in
      run.1 = Returned (bool_decide (status_code req = 200))
      ∧ self run.2
        = (if decide (status_code req = 200)
           then set_task_id (task_data_id (json_data req))
                  (set_return_code (status_code req) (self st))
           else set_return_code (status_code req) (self st))
      ∧ users run.2 = users st ∧ tags_table run.2 = tags_table st
      ∧ stdout run.2 = stdout st ∧ clock run.2 = clock st.
Proof.
  unfold due_date, edit_task. run. case_decide.
  - run. destruct (plus_days _ _) as [d|e]; [|done]. intros [= <-].
    run. case_decide; cbn; eexists; (split; [done|]);
      rewrite ?bool_decide_eq_true_2, ?bool_decide_eq_false_2,
        ?decide_True, ?decide_False by done; done.
  - intros [= <-].
    run. case_decide; cbn; eexists; (split; [done|]);
      rewrite ?bool_decide_eq_true_2, ?bool_decide_eq_false_2,
        ?decide_True, ?decide_False by done; done.
Qed.

(** C2, as the code has it.  With [task_days] equal to 0 the one request
    that [create_task] and [edit_task] send has no [date] field.  With
    [task_days] above 0, when the clock reading at the call plus that many
    days is a [datetime], the one request has as [date] field its ISO
    rendering; when it is not, the method raises [OverflowError] before any
    request and changes nothing. *)
Theorem due_date_field cipher st :
  let created := create_task decrypt_text isoformat api cipher st in
  let edited := edit_task decrypt_text CIPHER_FILE isoformat api st in
  (task_days (self st) = 0 →
     (∃ r, sent created.2 = sent st ++ [r] ∧ field "date" (data r) = None)
     ∧ (∃ r, sent edited.2 = sent st ++ [r] ∧ field "date" (data r) = None))
  ∧ (task_days (self st) > 0 →
     ∀ d, plus_days (clock st) (task_days (self st)) = Returned d →
     d = clock st + task_days (self st) * 86400000000
     ∧ (∃ r, sent created.2 = sent st ++ [r]
             ∧ field "date" (data r) = Some (Str (isoformat d)))
     ∧ (∃ r, sent edited.2 = sent st ++ [r]
             ∧ field "date" (data r) = Some (Str (isoformat d))))
  ∧ (task_days (self st) > 0 →
     ∀ e, plus_days (clock st) (task_days (self st)) = Raised e →
     created = (Raised OverflowError, st) ∧ edited = (Raised OverflowError, st)).
Proof.
  intros created edited. split; [|split].
  - intros Hdays.
    assert (due_date isoformat (clock st) (task_days (self st)) = Returned None)
      as Hdue by (unfold due_date; rewrite decide_False by lia; done).
    destruct (create_task_sends cipher st _ Hdue) as (r1 & Hs1 & _ & _ & _ & Hd1 & _).
    destruct (edit_task_sends st _ Hdue) as (r2 & Hs2 & _ & _ & _ & Hd2 & _).
    split; [exists r1 | exists r2]; done.
  - intros Hdays d Hplus.
    assert (due_date isoformat (clock st) (task_days (self st))
            = Returned (Some (isoformat d)))
      as Hdue by (unfold due_date; rewrite decide_True, Hplus by done; done).
    destruct (create_task_sends cipher st _ Hdue) as (r1 & Hs1 & _ & _ & _ & Hd1 & _).
    destruct (edit_task_sends st _ Hdue) as (r2 & Hs2 & _ & _ & _ & Hd2 & _).
    apply plus_days_Returned in Hplus as [_ ->].
    split; [done|]. split; [exists r1 | exists r2]; done.
  - intros Hdays e Hplus.
    apply plus_days_Raised in Hplus as Heq. subst e.
    assert (due_date isoformat (clock st) (task_days (self st))
            = Raised OverflowError)
      as Hdue by (unfold due_date; rewrite decide_True, Hplus by done; done).
    split; [by apply create_task_raises | by apply edit_task_raises].
Qed.

(** The two ways a task method goes: it stops at the due date, or it gets
    to its request. *)
Lemma due_date_cases st :
  (task_days (self st) > 0
   ∧ plus_days (clock st) (task_days (self st)) = Raised OverflowError
   ∧ due_date isoformat (clock st) (task_days (self st)) = Raised OverflowError)
  ∨ ∃ date, due_date isoformat (clock st) (task_days (self st)) = Returned date.
Proof.
  destruct (due_date isoformat (clock st) (task_days (self st)))
    as [date|e] eqn:Hdue; [eauto|].
  left. apply due_date_Raised in Hdue as (? & -> & ?). done.
Qed.

(** C8.  Unless the due date overflows, and then [create_task] raises
    before its request, it sends one request; it returns [True] exactly
    when the answer has status 201, and then [task_id] is the [id] of the
    answer's [data]; on any other status it returns [False] and [task_id]
    is unchanged. *)
Theorem create_task_status cipher st :
  let run := create_task decrypt_text isoformat api cipher st in
  (task_days (self st) > 0
   ∧ plus_days (clock st) (task_days (self st)) = Raised OverflowError
   ∧ run = (Raised OverflowError, st))
  ∨ (∃ r, sent run.2 = sent st ++ [r]
      ∧ let req := api_tasks_user api r in
        (run.1 = Returned true ↔ status_code req = 201)
        ∧ (status_code req = 201 →
             task_id (self run.2) = task_data_id (json_data req))
        ∧ (status_code req ≠ 201 →
             run.1 = Returned false ∧ task_id (self run.2) = task_id (self st))).
Proof.
  intros run. destruct (due_date_cases st) as [(Hdays & Hplus & Hdue)|[date Hdue]].
  - left. by rewrite <- (create_task_raises cipher st _ Hdue).
  - right.
    destruct (create_task_sends cipher st _ Hdue)
      as (r & Hs & _ & _ & _ & _ & Hres & Hself & _).
    exists r. split; [done|]. fold run in Hres, Hself. cbn zeta.
    rewrite Hres, Hself.
    case_bool_decide as Hcode; [rewrite decide_True by done
                               |rewrite decide_False by done];
      cbn; split_and!; try done; naive_solver.
Qed.

(** C10.  Unless the due date overflows, and then [edit_task] raises
    before its request, it sends one request; when the answer has status
    200, [edit_task] returns [True] and the session's [task_id] becomes
    the [id] of the answer's [data], whatever it was before. *)
Theorem edit_task_overwrites_task_id st :
  let run := edit_task decrypt_text CIPHER_FILE isoformat api st in
  (task_days (self st) > 0
   ∧ plus_days (clock st) (task_days (self st)) = Raised OverflowError
   ∧ run = (Raised OverflowError, st))
  ∨ (∃ r, sent run.2 = sent st ++ [r]
      ∧ let req := api_tasks api r in
        (status_code req = 200 →
           run.1 = Returned true
           ∧ task_id (self run.2) = task_data_id (json_data req))).
Proof.
  intros run. destruct (due_date_cases st) as [(Hdays & Hplus & Hdue)|[date Hdue]].
  - left. by rewrite <- (edit_task_raises st _ Hdue).
  - right.
    destruct (edit_task_sends st _ Hdue)
      as (r & Hs & _ & _ & _ & _ & Hres & Hself & _).
    exists r. split; [done|]. fold run in Hres, Hself. cbn zeta.
    intros Hcode. rewrite Hres, Hself.
    by rewrite bool_decide_eq_true_2, decide_True.
Qed.

(** C4, as the code has it.  With an empty [task_id] nothing is checked.
    Unless the due date overflows, and then [edit_task] raises before its
    request, it sends one PUT request to the URL that ends in [tasks/],
    records the status and returns [True] exactly when it is 200. *)
Theorem edit_task_empty_task_id st :
  task_id (self st) = "" →
  let run := edit_task decrypt_text CIPHER_FILE isoformat api st in
  (task_days (self st) > 0
   ∧ plus_days (clock st) (task_days (self st)) = Raised OverflowError
   ∧ run = (Raised OverflowError, st))
  ∨ (∃ r, sent run.2 = sent st ++ [r]
      ∧ method r = PUT
      ∧ url r = "https://habitica.com/api/v3/tasks/"
      ∧ let req := api_tasks api r in
        return_code (self run.2) = status_code req
        ∧ run.1 = Returned (bool_decide (status_code req = 200))).
Proof.
  intros Hid run.
  destruct (due_date_cases st) as [(Hdays & Hplus & Hdue)|[date Hdue]].
  - left. by rewrite <- (edit_task_raises st _ Hdue).
  - right.
    destruct (edit_task_sends st _ Hdue)
      as (r & Hs & Hm & Hurl & _ & _ & Hres & Hself & _).
    exists r. rewrite Hid in Hurl. split_and!; try done.
    fold run in Hself. cbn zeta. rewrite Hself. by case_decide.
Qed.
End Tasks.

(** ** Logging in *)

Section Login.
Variable encrypt_text : string → string.
Variable decrypt_text : string → string → string.
Variable CIPHER_FILE : string.

(** What a successful password login leaves behind. *)
Lemma login_success api password st st' :
  login encrypt_text api password st = (Returned true, st') →
  ∃ key name,
    Users.update_or_create (hab_user_id (self st')) key name (users st)
      = Returned (users st')
    ∧ api_token (self st') = key.
Proof.
  unfold login. run. case_decide; [|done].
  cbn. destruct (Users.update_or_create _ _ _ _) as [tbl|e] eqn:Hup; [|done].
  intros [= <-]. cbn. eauto.
Qed.

Lemma login_api_key_success api st st' :
  login_api_key decrypt_text CIPHER_FILE api st = (Returned true, st') →
  hab_user_id (self st') = hab_user_id (self st)
  ∧ ∃ key name,
      Users.update_or_create (hab_user_id (self st)) key name (users st)
        = Returned (users st').
Proof.
  unfold login_api_key. run. case_decide; [|done].
  cbn. destruct (Users.update_or_create _ _ _ _) as [tbl|e] eqn:Hup; [|done].
  intros [= <-]. cbn. eauto.
Qed.

(** C6.  [login] and [login_api_key] send one request each.  When the
    answer's status is not 200 the method returns [False], the session is
    the one before with only [return_code] set to that status (so
    [logged_in] and the identity fields keep their values) and the tables
    are untouched. *)
Theorem login_failure api password st :
  (∃ r, sent (login encrypt_text api password st).2 = sent st ++ [r]
    ∧ let req := api_user_auth_local_login api r in
      status_code req ≠ 200 →
      let st' := (login encrypt_text api password st).2 in
      (login encrypt_text api password st).1 = Returned false
      ∧ self st' = set_return_code (status_code req) (self st)
      ∧ return_code (self st') = status_code req
      ∧ logged_in (self st') = logged_in (self st)
      ∧ users st' = users st ∧ tags_table st' = tags_table st)
  ∧ (∃ r, sent (login_api_key decrypt_text CIPHER_FILE api st).2 = sent st ++ [r]
    ∧ let req := api_user api r in
      status_code req ≠ 200 →
      let st' := (login_api_key decrypt_text CIPHER_FILE api st).2 in
      (login_api_key decrypt_text CIPHER_FILE api st).1 = Returned false
      ∧ self st' = set_return_code (status_code req) (self st)
      ∧ return_code (self st') = status_code req
      ∧ logged_in (self st') = logged_in (self st)
      ∧ users st' = users st ∧ tags_table st' = tags_table st).
Proof.
  split.
  - unfold login. run. case_decide as Hcode.
    + cbn. destruct (Users.update_or_create _ _ _ _); cbn;
        eexists; (split; [done|]); cbn zeta; by rewrite Hcode.
    + cbn. eexists; (split; [done|]); done.
  - unfold login_api_key. run. case_decide as Hcode.
    + cbn. destruct (Users.update_or_create _ _ _ _); cbn;
        eexists; (split; [done|]); cbn zeta; by rewrite Hcode.
    + cbn. eexists; (split; [done|]); done.
Qed.
End Login.

(** ** Facts about the manager methods *)

Section ManagerFacts.
Context {row : Type} (key : row → string).
Variable k : string.
Variable created : row.
Variable defaults : row → row.
Hypothesis key_created : key created = k.
Hypothesis key_defaults : ∀ r, key (defaults r) = key r.

Lemma key_update r : key (Manager.update key k defaults r) = key r.
Proof. unfold Manager.update. by case_decide. Qed.

Lemma matching_update k' tbl :
  Manager.matching key k' (Manager.update key k defaults <$> tbl)
  = Manager.update key k defaults <$> Manager.matching key k' tbl.
Proof.
  unfold Manager.matching.
  induction tbl as [|r tbl IH]; [done|].
  rewrite fmap_cons, !filter_cons, key_update, IH.
  by case_decide.
Qed.

Lemma update_other k' tbl :
  k' ≠ k →
  Manager.update key k defaults <$> Manager.matching key k' tbl
  = Manager.matching key k' tbl.
Proof.
  intros Hne. rewrite <- (list_fmap_id (Manager.matching key k' tbl)) at 2.
  apply list_fmap_ext. intros i r Hr.
  apply list_elem_of_lookup_2, list_elem_of_filter in Hr as [Hk _].
  unfold Manager.update. case_decide; [congruence|done].
Qed.

(** The two ways [update_or_create] succeeds. *)
Lemma update_or_create_Returned tbl tbl' :
  Manager.update_or_create key k created defaults tbl = Returned tbl' →
  (Manager.matching key k tbl = [] ∧ tbl' = tbl ++ [created])
  ∨ (∃ r, Manager.matching key k tbl = [r]
          ∧ tbl' = Manager.update key k defaults <$> tbl).
Proof.
  unfold Manager.update_or_create.
  destruct (Manager.matching key k tbl) as [|r [|r' m]]; [| |done].
  - intros [= <-]. by left.
  - intros [= <-]. right. by exists r.
Qed.

Lemma update_or_create_Raised tbl e :
  Manager.update_or_create key k created defaults tbl = Raised e →
  (1 < length (Manager.matching key k tbl))%nat.
Proof.
  unfold Manager.update_or_create.
  destruct (Manager.matching key k tbl) as [|r [|r' m]]; [done|done|].
  intros _. cbn. lia.
Qed.

(** After it, exactly one row has the key. *)
Lemma update_or_create_matching tbl tbl' :
  Manager.update_or_create key k created defaults tbl = Returned tbl' →
  Manager.matching key k tbl' = [created]
  ∨ ∃ r, Manager.matching key k tbl = [r]
         ∧ Manager.matching key k tbl' = [defaults r].
Proof.
  intros [[Hm ->]|(r & Hm & ->)]%update_or_create_Returned.
  - left. unfold Manager.matching in *.
    rewrite filter_app, Hm. cbn. by rewrite decide_True.
  - right. exists r. split; [done|].
    rewrite matching_update, Hm. cbn.
    assert (key r = k) as Hr.
    { assert (r ∈ Manager.matching key k tbl) as Hin by (rewrite Hm; left).
      by apply list_elem_of_filter in Hin as [? _]. }
    unfold Manager.update. by rewrite decide_True.
Qed.

(** The rows of the other keys are as before. *)
Lemma update_or_create_other k' tbl tbl' :
  k' ≠ k →
  Manager.update_or_create key k created defaults tbl = Returned tbl' →
  Manager.matching key k' tbl' = Manager.matching key k' tbl.
Proof.
  intros Hne [[Hm ->]|(r & Hm & ->)]%update_or_create_Returned.
  - unfold Manager.matching.
    rewrite filter_app. cbn. rewrite decide_False by congruence.
    by rewrite app_nil_r.
  - by rewrite matching_update, update_other.
Qed.

(** On a table with one row of the key it is an update in place. *)
Lemma update_or_create_unique tbl :
  length (Manager.matching key k tbl) = 1%nat →
  Manager.update_or_create key k created defaults tbl
  = Returned (Manager.update key k defaults <$> tbl).
Proof.
  unfold Manager.update_or_create.
  by destruct (Manager.matching key k tbl) as [|r [|r' m]].
Qed.
End ManagerFacts.

(** ** One [Users] row per user *)

Lemma Users_update_or_create_one k key name tbl tbl' :
  Users.update_or_create k key name tbl = Returned tbl' →
  length (Manager.matching Users.user_id k tbl') = 1%nat.
Proof.
  intros Hup. unfold Users.update_or_create in Hup.
  apply update_or_create_matching in Hup as [->|(r & _ & ->)]; done.
Qed.

Lemma Users_update_or_create_length k key name tbl tbl' :
  length (Manager.matching Users.user_id k tbl) = 1%nat →
  Users.update_or_create k key name tbl = Returned tbl' →
  length tbl' = length tbl.
Proof.
  intros Hone. unfold Users.update_or_create.
  rewrite update_or_create_unique by done.
  intros [= <-]. apply length_fmap.
Qed.

Lemma Users_update_or_create_row k key name tbl tbl' :
  Users.update_or_create k key name tbl = Returned tbl' →
  Manager.matching Users.user_id k tbl'
  = [ {| Users.user_id := k; Users.api_key := key; Users.username := name |} ].
Proof.
  intros Hup. unfold Users.update_or_create in Hup.
  apply update_or_create_matching in Hup; [|done..].
  destruct Hup as [->|(r & Hr & ->)]; [done|].
  assert (r ∈ Manager.matching Users.user_id k tbl) as Hin by (rewrite Hr; left).
  apply list_elem_of_filter in Hin as [Hid _].
  unfold Users.defaults. by rewrite Hid.
Qed.

Lemma Users_update_or_create_others k k' key name tbl tbl' :
  k' ≠ k →
  Users.update_or_create k key name tbl = Returned tbl' →
  Manager.matching Users.user_id k' tbl' = Manager.matching Users.user_id k' tbl.
Proof.
  intros Hne Hup. unfold Users.update_or_create in Hup.
  by eapply update_or_create_other in Hup.
Qed.

(** C7.  A successful [login] followed on the same session by a successful
    [login_api_key] leaves exactly one [Users] row with the session's
    [hab_user_id].  It is the row that the first login left, updated: it
    holds the session's token and, as user name, the profile name of the
    second answer.  The second login keeps the user id, adds no row and
    leaves the rows of the other users as they were. *)
Theorem login_then_login_api_key_one_row
    encrypt_text decrypt_text CIPHER_FILE api1 api2 password st st1 st2 :
  login encrypt_text api1 password st = (Returned true, st1) →
  login_api_key decrypt_text CIPHER_FILE api2 st1 = (Returned true, st2) →
  let id := hab_user_id (self st1) in
  ∃ r, sent st2 = sent st1 ++ [r]
    ∧ hab_user_id (self st2) = id
    ∧ Manager.matching Users.user_id id (users st1)
      = [ {| Users.user_id := id; Users.api_key := api_token (self st1);
             Users.username := username (self st1) |} ]
    ∧ Manager.matching Users.user_id id (users st2)
      = [ {| Users.user_id := id; Users.api_key := api_token (self st1);
             Users.username := data_profile_name (json_data (api_user api2 r)) |} ]
    ∧ length (users st2) = length (users st1)
    ∧ ∀ k, k ≠ id →
        Manager.matching Users.user_id k (users st2)
        = Manager.matching Users.user_id k (users st1).
Proof.
  unfold login. run. case_decide as Hcode1; [|done].
  cbn. destruct (Users.update_or_create _ _ _ (users st)) as [tbl1|e] eqn:Hup1;
    [|done].
  intros [= <-]. unfold login_api_key. run. case_decide as Hcode2; [|done].
  cbn. destruct (Users.update_or_create _ _ _ tbl1) as [tbl2|e] eqn:Hup2; [|done].
  intros [= <-]. cbn. eexists. split; [done|]. split; [done|].
  apply Users_update_or_create_row in Hup1 as Hrow1.
  apply Users_update_or_create_row in Hup2 as Hrow2.
  split; [done|]. split; [done|]. split.
  - eapply Users_update_or_create_length; [|done]. by rewrite Hrow1.
  - intros k Hk. by eapply Users_update_or_create_others.
Qed.

(** ** The loops of [get_user_tags] *)

Section Loops.
Variable user : Users.row.

(** The first loop touches the [Tags] table only, and what it does there
    does not depend on [current_tag_ids]. *)
Lemma add_update_tags_run tags_json : ∀ current_tag_ids st,
  let run := add_update_tags user tags_json current_tag_ids st in
  let pure := upsert_all user tags_json (tags_table st) in
  tags_table run.2 = pure.2
  ∧ self run.2 = self st ∧ users run.2 = users st ∧ sent run.2 = sent st
  ∧ stdout run.2 = stdout st ∧ clock run.2 = clock st
  ∧ if pure.1 then run.1 = Returned (unmatched tags_json current_tag_ids)
    else ∃ e, run.1 = Raised e.
Proof.
  induction tags_json as [|t rest IH]; intros cur st; [done|].
  cbn [add_update_tags upsert_all unmatched foldl]. run.
  destruct (Tags.update_or_create _ _ _ _) as [tbl|e]; [|cbn; eauto 10].
  apply (IH _ (with_tags tbl st)).
Qed.

Lemma delete_leftover_run ids : ∀ st,
  let run := delete_leftover ids st in
  run.1 = Returned tt
  ∧ tags_table run.2 = without ids (tags_table st)
  ∧ self run.2 = self st ∧ users run.2 = users st ∧ sent run.2 = sent st
  ∧ clock run.2 = clock st.
Proof.
  induction ids as [|x ids IH]; intros st.
  - cbn. unfold without. repeat split.
    induction (tags_table st) as [|r tbl IHt]; [done|].
    rewrite filter_cons_True; [by f_equal|]. apply not_elem_of_nil.
  - cbn [delete_leftover]. run.
    match goal with |- context [delete_leftover ids ?s] =>
      destruct (IH s) as (-> & -> & -> & -> & -> & ->) end.
    cbn. repeat split. unfold without, Tags.delete, Manager.delete.
    rewrite list_filter_filter. apply list_filter_iff.
    intros r. rewrite not_elem_of_cons. tauto.
Qed.
End Loops.

(** ** The table after the first loop *)

Lemma not_elem_of_filter_eq (x : string) (l : list string) :
  x ∉ l ↔ filter (λ y, y = x) l = [].
Proof.
  split.
  - intros Hx. induction l as [|y l IH]; [done|].
    apply not_elem_of_cons in Hx as [Hne Hx].
    rewrite filter_cons_False by congruence. auto.
  - intros Hnil. by apply (filter_nil_not_elem_of (λ y, y = x) l x).
Qed.

Lemma remove_filter_other (x y : string) (l : list string) :
  y ≠ x → filter (λ z, z = y) (remove x l) = filter (λ z, z = y) l.
Proof.
  intros Hne. induction l as [|z l IH]; [done|]. cbn [remove].
  case_decide as Hz.
  - subst z. by rewrite filter_cons_False by congruence.
  - rewrite !filter_cons, IH. done.
Qed.

Lemma remove_filter_same (x : string) (l : list string) :
  x ∈ l →
  S (length (filter (λ z, z = x) (remove x l))) = length (filter (λ z, z = x) l).
Proof.
  induction l as [|z l IH]; [by intros ?%elem_of_nil|].
  intros Hx. cbn [remove]. case_decide as Hz.
  - subst z. by rewrite filter_cons_True.
  - apply elem_of_cons in Hx as [->|Hx]; [done|].
    rewrite !filter_cons_False by done. auto.
Qed.

Lemma elem_of_remove (x y : string) (l : list string) :
  y ∈ remove x l → y ∈ l.
Proof.
  induction l as [|z l IH]; [done|]. cbn [remove].
  case_decide; rewrite ?elem_of_cons; tauto.
Qed.

Section TagTable.
Variable user : Users.row.
Let uid := Users.user_id user.

Lemma upsert_matching t tbl tbl' :
  Tags.update_or_create (json_id t) user (unicode_escape (json_name t)) tbl
    = Returned tbl' →
  Manager.matching Tags.tag_id (json_id t) tbl' = [tag_row uid t].
Proof.
  unfold Tags.update_or_create.
  intros Hup. apply update_or_create_matching in Hup; [|done..].
  destruct Hup as [->|(r & Hr & ->)]; [done|].
  assert (r ∈ Manager.matching Tags.tag_id (json_id t) tbl) as Hin
    by (rewrite Hr; left).
  apply list_elem_of_filter in Hin as [Hid _].
  unfold Tags.defaults, tag_row. by rewrite Hid.
Qed.

Lemma upsert_other x t tbl tbl' :
  x ≠ json_id t →
  Tags.update_or_create (json_id t) user (unicode_escape (json_name t)) tbl
    = Returned tbl' →
  Manager.matching Tags.tag_id x tbl' = Manager.matching Tags.tag_id x tbl.
Proof. intros Hne. by apply update_or_create_other. Qed.

Lemma upsert_at_most_one t tbl tbl' :
  Tags.update_or_create (json_id t) user (unicode_escape (json_name t)) tbl
    = Returned tbl' →
  (length (Manager.matching Tags.tag_id (json_id t) tbl) ≤ 1)%nat.
Proof.
  unfold Tags.update_or_create.
  intros [[-> _]|(r & -> & _)]%update_or_create_Returned; cbn; lia.
Qed.

(** The rows of the ids that the remote list does not name stay. *)
Lemma upsert_all_other x tags_json : ∀ tbl tbl',
  x ∉ json_id <$> tags_json →
  upsert_all user tags_json tbl = (true, tbl') →
  Manager.matching Tags.tag_id x tbl' = Manager.matching Tags.tag_id x tbl.
Proof.
  induction tags_json as [|t rest IH]; intros tbl tbl' Hx; cbn.
  - by intros [= <-].
  - rewrite fmap_cons in Hx. apply not_elem_of_cons in Hx as [Hne Hx].
    destruct (Tags.update_or_create _ _ _ _) as [tbl1|e] eqn:Hup; [|done].
    intros Hrest. rewrite (IH _ _ Hx Hrest). by eapply upsert_other.
Qed.

(** The row of an id is the one written for its last entry. *)
Lemma upsert_all_last tags_json : ∀ tbl tbl' pre t post,
  upsert_all user tags_json tbl = (true, tbl') →
  tags_json = pre ++ t :: post →
  json_id t ∉ json_id <$> post →
  Manager.matching Tags.tag_id (json_id t) tbl' = [tag_row uid t].
Proof.
  induction tags_json as [|t0 rest IH]; intros tbl tbl' pre t post Hrun Hsplit Hlast.
  - by destruct pre.
  - cbn in Hrun.
    destruct (Tags.update_or_create _ _ _ _) as [tbl1|e] eqn:Hup; [|done].
    destruct pre as [|t1 pre]; cbn in Hsplit; injection Hsplit as -> ->.
    + rewrite (upsert_all_other _ _ _ _ Hlast Hrun). by eapply upsert_matching.
    + by eapply IH.
Qed.

Lemma last_entry x (tags_json : list tag_json) :
  x ∈ json_id <$> tags_json →
  ∃ pre t post, tags_json = pre ++ t :: post ∧ json_id t = x
                ∧ x ∉ json_id <$> post.
Proof.
  induction tags_json as [|t0 rest IH]; [by intros ?%elem_of_nil|].
  intros Hx. destruct (decide (x ∈ json_id <$> rest)) as [Hin|Hnin].
  - destruct (IH Hin) as (pre & t & post & -> & Ht & Hpost).
    by exists (t0 :: pre), t, post.
  - rewrite fmap_cons in Hx. apply elem_of_cons in Hx as [->|Hx]; [|done].
    by exists [], t0, rest.
Qed.

(** The ids left in [current_tag_ids]. *)
Lemma unmatched_other x tags_json : ∀ ids,
  x ∉ json_id <$> tags_json →
  filter (λ y, y = x) (unmatched tags_json ids) = filter (λ y, y = x) ids.
Proof.
  induction tags_json as [|t rest IH]; intros ids Hx; [done|].
  rewrite fmap_cons in Hx. apply not_elem_of_cons in Hx as [Hne Hx].
  cbn. unfold unmatched in IH. rewrite IH by done.
  case_decide; [|done]. by apply remove_filter_other.
Qed.

Lemma unmatched_subseteq tags_json : ∀ ids x,
  x ∈ unmatched tags_json ids → x ∈ ids.
Proof.
  induction tags_json as [|t rest IH]; intros ids x; [done|].
  cbn. intros Hx%IH. case_decide; [by eapply elem_of_remove|done].
Qed.

Lemma covered_owned tbl :
  covered tbl (Tags.tag_id <$> Manager.matching Tags.tag_owner uid tbl).
Proof.
  intros x. unfold Manager.matching.
  induction tbl as [|r tbl IH]; [done|].
  rewrite (filter_cons (λ r, Tags.tag_id r = x)).
  rewrite (filter_cons (λ r, Tags.tag_owner r = uid)).
  destruct (decide (Tags.tag_owner r = uid));
    destruct (decide (Tags.tag_id r = x));
    rewrite ?fmap_cons, ?filter_cons_True, ?filter_cons_False by done;
    cbn [length]; lia.
Qed.

(** When the loop runs to its end, no id of the remote list is left in
    [current_tag_ids], provided the list held no id more often than the
    table had rows of it. *)
Lemma upsert_all_unmatched tags_json : ∀ tbl tbl' ids,
  upsert_all user tags_json tbl = (true, tbl') →
  covered tbl ids →
  covered tbl' (unmatched tags_json ids)
  ∧ ∀ x, x ∈ json_id <$> tags_json → x ∉ unmatched tags_json ids.
Proof.
  induction tags_json as [|t rest IH]; intros tbl tbl' ids Hrun Hcov.
  - cbn in *. injection Hrun as <-. split; [done|]. by intros x ?%elem_of_nil.
  - cbn in Hrun.
    destruct (Tags.update_or_create _ _ _ _) as [tbl1|e] eqn:Hup; [|done].
    set (ids1 := if decide (json_id t ∈ ids)
                 then remove (json_id t) ids else ids).
    assert (filter (λ y, y = json_id t) ids1 = []) as Hgone.
    { pose proof (Hcov (json_id t)) as Hle.
      pose proof (upsert_at_most_one _ _ _ Hup) as Hone.
      unfold ids1. case_decide as Hin.
      - pose proof (remove_filter_same _ _ Hin) as Hrem.
        apply length_zero_iff_nil. lia.
      - by apply not_elem_of_filter_eq. }
    assert (covered tbl1 ids1) as Hcov1.
    { intros x. destruct (decide (x = json_id t)) as [->|Hne].
      - rewrite Hgone. cbn. lia.
      - rewrite (upsert_other _ _ _ _ Hne Hup).
        unfold ids1. case_decide; [|done].
        by rewrite remove_filter_other. }
    destruct (IH _ _ _ Hrun Hcov1) as [Hcov' Hnin].
    change (unmatched (t :: rest) ids) with (unmatched rest ids1).
    split; [done|]. intros x Hx.
    destruct (decide (x ∈ json_id <$> rest)) as [Hin|Hnotin]; [by apply Hnin|].
    rewrite fmap_cons in Hx. apply elem_of_cons in Hx as [->|Hx]; [|done].
    apply not_elem_of_filter_eq. by rewrite unmatched_other.
Qed.
End TagTable.

Lemma filter_all {A} (P : A → Prop) `{∀ x, Decision (P x)} (l : list A) :
  (∀ x, x ∈ l → P x) → filter P l = l.
Proof.
  induction l as [|x l IH]; [done|]. intros Hall.
  rewrite filter_cons_True by (apply Hall; left).
  f_equal. apply IH. intros y Hy. apply Hall. by right.
Qed.

Lemma matching_without x ids tbl :
  x ∉ ids →
  Manager.matching Tags.tag_id x (without ids tbl)
  = Manager.matching Tags.tag_id x tbl.
Proof.
  intros Hx. unfold Manager.matching, without.
  rewrite list_filter_filter. apply list_filter_iff.
  intros r. split; [tauto|]. intros Hr. split; [done|congruence].
Qed.

Lemma Users_get_user_id k tbl user :
  Users.get k tbl = Returned user → Users.user_id user = k.
Proof.
  unfold Users.get, Manager.get.
  destruct (Manager.matching Users.user_id k tbl) as [|r [|r' m]] eqn:Hm;
    [done| |done].
  intros [= <-].
  assert (r ∈ Manager.matching Users.user_id k tbl) as Hin by (rewrite Hm; left).
  by apply list_elem_of_filter in Hin as [? _].
Qed.

(** ** Tag reconciliation *)

Section Reconciliation.
Variable user : Users.row.
Let uid := Users.user_id user.

(** After both loops the user's tags are the remote ones. *)
Lemma reconciled tags_json tbl tbl1 :
  upsert_all user tags_json tbl = (true, tbl1) →
  let ids := unmatched tags_json
               (Tags.tag_id <$> Manager.matching Tags.tag_owner uid tbl) in
  ∀ x, x ∈ Tags.tag_id <$> Manager.matching Tags.tag_owner uid (without ids tbl1)
       ↔ x ∈ json_id <$> tags_json.
Proof.
  intros Hrun ids x.
  destruct (upsert_all_unmatched user _ _ _ _ Hrun (covered_owned user tbl))
    as [_ Hgone].
  split.
  - intros (r & -> & Hr)%list_elem_of_fmap.
    apply list_elem_of_filter in Hr as [Howner Hr].
    apply list_elem_of_filter in Hr as [Hleft Hr].
    destruct (decide (Tags.tag_id r ∈ json_id <$> tags_json)) as [|Hnot];
      [done|].
    exfalso. apply not_elem_of_filter_eq in Hleft. unfold ids in Hleft.
    rewrite unmatched_other in Hleft by done.
    apply not_elem_of_filter_eq in Hleft. apply Hleft.
    apply list_elem_of_fmap. exists r. split; [done|].
    apply list_elem_of_filter. split; [done|].
    assert (r ∈ Manager.matching Tags.tag_id (Tags.tag_id r) tbl1) as Hin
      by by apply list_elem_of_filter.
    rewrite (upsert_all_other user _ _ _ _ Hnot Hrun) in Hin.
    by apply list_elem_of_filter in Hin as [_ ?].
  - intros Hx. destruct (last_entry _ _ Hx) as (pre & t & post & Hsplit & <- & Hlast).
    pose proof (upsert_all_last user _ _ _ _ _ _ Hrun Hsplit Hlast) as Hrow.
    apply list_elem_of_fmap. exists (tag_row uid t). split; [done|].
    apply list_elem_of_filter. split; [done|].
    apply list_elem_of_filter. split; [by apply Hgone|].
    assert (tag_row uid t ∈ Manager.matching Tags.tag_id (json_id t) tbl1)
      as Hin by (fold uid in Hrow; rewrite Hrow; left).
    by apply list_elem_of_filter in Hin as [_ ?].
Qed.
End Reconciliation.

Section TagSync.
Variable decrypt_text : string → string → string.
Variable api : habitica.
Variable cipher : string.

(** [get_user_tags], case by case. *)
Lemma get_user_tags_run st :
  let r := get_user_tags_request decrypt_text cipher (self st) in
  let req := api_tags api r in
  let run := get_user_tags decrypt_text api cipher st in
  sent run.2 = sent st ++ [r]
  ∧ self run.2 = set_return_code (status_code req) (self st)
  ∧ users run.2 = users st
  ∧ if decide (status_code req = 200) then
      match Users.get (hab_user_id (self st)) (users st) with
      | Raised e => run.1 = Raised e ∧ tags_table run.2 = tags_table st
      | Returned user =>
          match json_data req with
          | Some (t :: l) =>
              let pure := upsert_all user (t :: l) (tags_table st) in
              if pure.1 then
                run.1 = Returned (Data (t :: l))
                ∧ tags_table run.2
                  = without (unmatched (t :: l)
                               (Tags.tag_id <$> Tags.owned_by user (tags_table st)))
                            pure.2
              else (∃ e, run.1 = Raised e) ∧ tags_table run.2 = pure.2
          | _ => run.1 = Returned False_ ∧ tags_table run.2 = tags_table st
          end
      end
    else run.1 = Returned False_ ∧ tags_table run.2 = tags_table st.
Proof.
  unfold get_user_tags, get_user_tags_request. run.
  case_decide as Hcode; run; [|done].
  destruct (Users.get _ _) as [user|e]; [|done].
  destruct (json_data _) as [[|t l]|]; [done| |done].
  match goal with |- context [add_update_tags user (t :: l) ?ids ?s] =>
    pose proof (add_update_tags_run user (t :: l) ids s) as Hloop;
    destruct (add_update_tags user (t :: l) ids s) as [o st1] end.
  cbn [fst snd tags_table self users sent stdout clock] in Hloop.
  destruct Hloop as (Htbl & Hself & Husers & Hsent & _ & _ & Hres).
  cbv zeta. destruct (upsert_all user (t :: l) (tags_table st)) as [[] tbl1];
    cbn [fst snd] in *.
  - subst o.
    destruct (delete_leftover_run
                (unmatched (t :: l)
                   (Tags.tag_id <$> Tags.owned_by user (tags_table st))) st1)
      as (Hret & Htbl2 & Hself2 & Husers2 & Hsent2 & _).
    destruct (delete_leftover _ st1) as [o2 st2]. cbn [fst snd] in *.
    subst o2. cbn. rewrite Hsent2, Hself2, Husers2, Htbl2. by subst.
  - destruct Hres as [e ->]. cbn. eauto 10.
Qed.
End TagSync.

(** ** The codec on plain names *)

Lemma escape_char_plain ch : plain ch → escape_char ch = [ch].
Proof.
  intros [[Hlo Hhi] Hne]. unfold escape_char.
  destruct (N.eqb_spec ch 92); [done|].
  destruct (N.leb_spec 65536 ch); [lia|].
  destruct (N.leb_spec 256 ch); [lia|].
  destruct (N.eqb_spec ch 9); [lia|].
  destruct (N.eqb_spec ch 10); [lia|].
  destruct (N.eqb_spec ch 13); [lia|].
  destruct (N.ltb_spec ch 32); [lia|].
  destruct (N.leb_spec 127 ch); [lia|done].
Qed.

Lemma unicode_escape_plain s : Forall plain s → unicode_escape s = s.
Proof.
  unfold unicode_escape. induction 1 as [|ch s Hch _ IH]; [done|].
  cbn. by rewrite escape_char_plain, IH.
Qed.

Lemma upsert_all_app user l1 l2 tbl :
  upsert_all user (l1 ++ l2) tbl
  = if (upsert_all user l1 tbl).1
    then upsert_all user l2 (upsert_all user l1 tbl).2
    else upsert_all user l1 tbl.
Proof.
  revert tbl. induction l1 as [|t l1 IH]; intros tbl; [done|]. cbn.
  by destruct (Tags.update_or_create _ _ _ _).
Qed.

(** ** What a tag synchronisation leaves in the store *)

Section TagSyncProperties.
Variable decrypt_text : string → string → string.
Variable api : habitica.
Variable cipher : string.

(** A successful run, unfolded. *)
Lemma get_user_tags_Data st l st' :
  get_user_tags decrypt_text api cipher st = (Returned (Data l), st') →
  ∃ user,
    Users.get (hab_user_id (self st)) (users st) = Returned user
    ∧ Users.user_id user = hab_user_id (self st)
    ∧ upsert_all user l (tags_table st)
      = (true, (upsert_all user l (tags_table st)).2)
    ∧ tags_table st'
      = without (unmatched l (Tags.tag_id <$> Tags.owned_by user (tags_table st)))
                (upsert_all user l (tags_table st)).2.
Proof.
  intros Hrun. pose proof (get_user_tags_run decrypt_text api cipher st) as H.
  cbv zeta in H. rewrite Hrun in H. cbn [fst snd] in H.
  destruct H as (_ & _ & _ & H).
  case_decide; [|by destruct H].
  destruct (Users.get _ _) as [user|e] eqn:Hget; [|by destruct H].
  destruct (json_data _) as [[|t l0]|]; [by destruct H| |by destruct H].
  cbv zeta in H.
  destruct (upsert_all user (t :: l0) (tags_table st)) as [[] tbl1] eqn:Hup;
    cbn [fst snd] in H.
  - destruct H as [[= ->] ->]. exists user. rewrite Hup.
    split; [done|]. split; [by eapply Users_get_user_id|]. done.
  - by destruct H as [[e ?] _].
Qed.

(** C1.  When [get_user_tags] returns the fetched list, the ids of the
    [Tags] rows owned by the session's user are exactly the ids of that
    list: each remote id has a row of the user, and no row of the user
    has another id. *)
Theorem tag_sync_snapshot st l st' :
  get_user_tags decrypt_text api cipher st = (Returned (Data l), st') →
  local_tag_ids (hab_user_id (self st)) st' = remote_tag_ids l.
Proof.
  intros (user & _ & Huid & Hup & Htbl)%get_user_tags_Data.
  unfold local_tag_ids, remote_tag_ids. apply set_eq. intros x.
  rewrite !elem_of_list_to_set, Htbl, <- Huid.
  by apply reconciled.
Qed.

(** C9, as the code has it.  When [get_user_tags] returns the fetched
    list, each of its entries was upserted in turn: right after the
    entry's turn of the loop the table has exactly one row with the
    entry's id, owned by the session's user, whose text is the
    [unicode_escape] encoding of the entry's name.  That row is still
    the only one of its id at the end when no later entry repeats the id.
    The text is the name itself when the name is plain. *)
Theorem tag_sync_rows st l st' :
  get_user_tags decrypt_text api cipher st = (Returned (Data l), st') →
  ∀ pre t post, l = pre ++ t :: post →
    let written := tag_row (hab_user_id (self st)) t in
    (∃ user tbl,
       Users.get (hab_user_id (self st)) (users st) = Returned user
       ∧ upsert_all user (pre ++ [t]) (tags_table st) = (true, tbl)
       ∧ Manager.matching Tags.tag_id (json_id t) tbl = [written])
    ∧ (json_id t ∉ json_id <$> post →
       Manager.matching Tags.tag_id (json_id t) (tags_table st') = [written])
    ∧ Tags.tag_owner written = hab_user_id (self st)
    ∧ Tags.tag_text written = unicode_escape (json_name t)
    ∧ (Forall plain (json_name t) → Tags.tag_text written = json_name t).
Proof.
  intros (user & Hget & Huid & Hup & Htbl)%get_user_tags_Data pre t post ->.
  cbv zeta. rewrite <- Huid. repeat split.
  - replace (pre ++ t :: post) with ((pre ++ [t]) ++ post) in Hup
      by by rewrite <- app_assoc.
    rewrite upsert_all_app in Hup.
    destruct (upsert_all user (pre ++ [t]) (tags_table st)) as [[] tbl] eqn:Hpre;
      cbn [fst snd] in Hup; [|done].
    exists user, tbl. split; [by rewrite Huid|]. split; [done|].
    by eapply (upsert_all_last user _ _ _ pre t []); [done..|apply not_elem_of_nil].
  - intros Hlast. rewrite Htbl, matching_without.
    + by eapply upsert_all_last.
    + eapply upsert_all_unmatched; [done|apply covered_owned|].
      rewrite fmap_app, fmap_cons. apply elem_of_app. right. left.
  - intros Hplain. cbn. by apply unicode_escape_plain.
Qed.

(** C3, as the code has it.  When the answer's status is not 200, or its
    data is an empty list or null, [get_user_tags] leaves both tables as
    they were and does not return a tag list.  It returns [False] when
    the status is not 200, and also on a 200 answer when the lookup of
    the session's user succeeds; when that lookup raises, the exception
    is what comes out. *)
Theorem tag_sync_failure st :
  let r := get_user_tags_request decrypt_text cipher (self st) in
  let req := api_tags api r in
  let run := get_user_tags decrypt_text api cipher st in
  status_code req ≠ 200 ∨ json_data req = None ∨ json_data req = Some [] →
  sent run.2 = sent st ++ [r]
  ∧ users run.2 = users st
  ∧ tags_table run.2 = tags_table st
  ∧ (∀ l, run.1 ≠ Returned (Data l))
  ∧ (status_code req ≠ 200 → run.1 = Returned False_)
  ∧ (∀ user, Users.get (hab_user_id (self st)) (users st) = Returned user →
             run.1 = Returned False_)
  ∧ (∀ e, status_code req = 200 →
          Users.get (hab_user_id (self st)) (users st) = Raised e →
          run.1 = Raised e).
Proof.
  intros r req run Hfail.
  destruct (get_user_tags_run decrypt_text api cipher st)
    as (Hsent & _ & Husers & H).
  fold r req run in Hsent, Husers, H.
  split; [done|]. split; [done|].
  case_decide as Hcode.
  - destruct Hfail as [?|Hdata]; [done|].
    destruct (Users.get _ _) as [user|e].
    + assert (run.1 = Returned False_ ∧ tags_table run.2 = tags_table st)
        as [Hres Htbl].
      { destruct (json_data req) as [[|t l]|];
          first [done | by destruct Hdata]. }
      rewrite Hres. repeat split; done.
    + destruct H as [Hres Htbl]. rewrite Hres. repeat split; try done.
      by intros e' _ [= ->].
  - destruct H as [Hres Htbl]. rewrite Hres. repeat split; done.
Qed.
End TagSyncProperties.

(** ** Running the synchronisation again *)

Lemma fmap_fixed {A} (f : A → A) (l : list A) :
  (∀ x, x ∈ l → f x = x) → f <$> l = l.
Proof.
  induction l as [|x l IH]; [done|]. intros Hfix.
  rewrite fmap_cons, Hfix by left. f_equal. apply IH.
  intros y Hy. apply Hfix. by right.
Qed.

Lemma without_nil tbl : without [] tbl = tbl.
Proof. apply filter_all. intros r _. apply not_elem_of_nil. Qed.

Section Again.
Variable user : Users.row.
Let uid := Users.user_id user.

Lemma settle_cons t rest r :
  settle user (t :: rest) r
  = settle user rest
      (Manager.update Tags.tag_id (json_id t)
         (Tags.defaults uid (unicode_escape (json_name t))) r).
Proof. done. Qed.

Lemma settle_other tags_json : ∀ r,
  Tags.tag_id r ∉ json_id <$> tags_json → settle user tags_json r = r.
Proof.
  induction tags_json as [|t rest IH]; intros r Hr; [done|].
  rewrite fmap_cons in Hr. apply not_elem_of_cons in Hr as [Hne Hr].
  rewrite settle_cons. unfold Manager.update.
  rewrite decide_False by done. by apply IH.
Qed.

Lemma settle_tag_id tags_json : ∀ r,
  Tags.tag_id (settle user tags_json r) = Tags.tag_id r.
Proof.
  induction tags_json as [|t rest IH]; intros r; [done|].
  rewrite settle_cons, IH. unfold Manager.update. by case_decide.
Qed.

Lemma settle_last pre t post r :
  Tags.tag_id r = json_id t →
  json_id t ∉ json_id <$> post →
  settle user (pre ++ t :: post) r = tag_row uid t.
Proof.
  intros Hr Hlast.
  assert (settle user (pre ++ t :: post) r
          = settle user (t :: post) (settle user pre r)) as ->
    by apply foldl_app.
  rewrite settle_cons.
  assert (Manager.update Tags.tag_id (json_id t)
            (Tags.defaults uid (unicode_escape (json_name t)))
            (settle user pre r) = tag_row uid t) as ->.
  { unfold Manager.update. rewrite decide_True by by rewrite settle_tag_id.
    unfold Tags.defaults, tag_row. by rewrite settle_tag_id, Hr. }
  by apply settle_other.
Qed.

(** On a table with one row for each remote id the loop only updates. *)
Lemma upsert_all_settled tags_json : ∀ tbl,
  (∀ x, x ∈ json_id <$> tags_json →
        length (Manager.matching Tags.tag_id x tbl) = 1%nat) →
  upsert_all user tags_json tbl = (true, settle user tags_json <$> tbl).
Proof.
  induction tags_json as [|t rest IH]; intros tbl Hone;
    [by rewrite list_fmap_id|].
  cbn [upsert_all]. unfold Tags.update_or_create.
  rewrite update_or_create_unique by (apply Hone; rewrite fmap_cons; left).
  rewrite IH.
  - by rewrite <- list_fmap_compose.
  - intros x Hx. rewrite matching_update by done. rewrite length_fmap.
    apply Hone. rewrite fmap_cons. by right.
Qed.

(** The rows that the loop leaves are the ones it would write again. *)
Lemma settle_fixed tags_json tbl tbl1 r :
  upsert_all user tags_json tbl = (true, tbl1) →
  r ∈ tbl1 → settle user tags_json r = r.
Proof.
  intros Hrun Hr.
  destruct (decide (Tags.tag_id r ∈ json_id <$> tags_json)) as [Hin|Hnot];
    [|by apply settle_other].
  destruct (last_entry _ _ Hin) as (pre & t & post & Hsplit & Hid & Hlast).
  rewrite <- Hid in Hlast.
  pose proof (upsert_all_last user _ _ _ _ _ _ Hrun Hsplit Hlast) as Hrow.
  assert (r ∈ Manager.matching Tags.tag_id (json_id t) tbl1) as Hmatch
    by by apply list_elem_of_filter.
  rewrite Hrow in Hmatch. apply list_elem_of_singleton in Hmatch.
  rewrite Hsplit, settle_last; done.
Qed.

Lemma upsert_all_fixed tags_json tbl tbl1 ids :
  upsert_all user tags_json tbl = (true, tbl1) →
  (∀ x, x ∈ json_id <$> tags_json → x ∉ ids) →
  upsert_all user tags_json (without ids tbl1) = (true, without ids tbl1).
Proof.
  intros Hrun Hids. rewrite upsert_all_settled.
  - f_equal. apply fmap_fixed. intros r [_ Hr]%list_elem_of_filter.
    by eapply settle_fixed.
  - intros x Hx. rewrite matching_without by by apply Hids.
    destruct (last_entry _ _ Hx) as (pre & t & post & Hsplit & <- & Hlast).
    by rewrite (upsert_all_last user _ _ _ _ _ _ Hrun Hsplit Hlast).
Qed.

Lemma upsert_all_false tags_json : ∀ tbl tbl1,
  upsert_all user tags_json tbl = (false, tbl1) →
  ∃ pre t post,
    tags_json = pre ++ t :: post
    ∧ upsert_all user pre tbl = (true, tbl1)
    ∧ ∃ e, Tags.update_or_create (json_id t) user
             (unicode_escape (json_name t)) tbl1 = Raised e.
Proof.
  induction tags_json as [|t rest IH]; intros tbl tbl1; [done|]. cbn.
  destruct (Tags.update_or_create _ _ _ _) as [tbl'|e] eqn:Hup.
  - intros (pre & t' & post & -> & Hpre & Hraise)%IH.
    exists (t :: pre), t', post. cbn. by rewrite Hup.
  - intros [= <-]. exists [], t, rest. eauto.
Qed.

(** A run that raised raises again, at the same table. *)
Lemma upsert_all_raised tags_json tbl tbl1 :
  upsert_all user tags_json tbl = (false, tbl1) →
  upsert_all user tags_json tbl1 = (false, tbl1).
Proof.
  intros (pre & t & post & -> & Hpre & e & Hraise)%upsert_all_false.
  pose proof (upsert_all_fixed pre tbl tbl1 [] Hpre) as Hfix.
  rewrite without_nil in Hfix.
  rewrite upsert_all_app, Hfix by (intros; apply not_elem_of_nil).
  cbn. by rewrite Hraise.
Qed.

(** After a run to the end, a second run finds nothing left to delete. *)
Lemma nothing_left tags_json tbl tbl1 :
  upsert_all user tags_json tbl = (true, tbl1) →
  let ids := unmatched tags_json
               (Tags.tag_id <$> Manager.matching Tags.tag_owner uid tbl) in
  let tbl2 := without ids tbl1 in
  upsert_all user tags_json tbl2 = (true, tbl2)
  ∧ without (unmatched tags_json
               (Tags.tag_id <$> Manager.matching Tags.tag_owner uid tbl2))
            tbl2 = tbl2.
Proof.
  intros Hrun ids tbl2.
  assert (upsert_all user tags_json tbl2 = (true, tbl2)) as Hrun2.
  { apply (upsert_all_fixed _ tbl); [done|].
    by eapply upsert_all_unmatched; [|apply covered_owned]. }
  split; [done|]. apply filter_all. intros r Hr Hleft.
  pose proof (unmatched_subseteq _ _ _ Hleft) as Howned.
  apply (reconciled user _ _ _ Hrun) in Howned.
  by eapply (upsert_all_unmatched user _ _ _ _ Hrun2 (covered_owned user tbl2)).
Qed.
End Again.

Section Idempotence.
Variable decrypt_text : string → string → string.
Variable api : habitica.
Variable cipher : string.

(** C5.  Whatever the first call of [get_user_tags] did, a second call on
    the state it left, answered by the same remote system, leaves both
    tables as the first call left them. *)
Theorem tag_sync_idempotent st :
  let st1 := (get_user_tags decrypt_text api cipher st).2 in
  let st2 := (get_user_tags decrypt_text api cipher st1).2 in
  tags_table st2 = tags_table st1 ∧ users st2 = users st1.
Proof.
  intros st1 st2.
  destruct (get_user_tags_run decrypt_text api cipher st)
    as (_ & Hself & Husers & H1).
  destruct (get_user_tags_run decrypt_text api cipher st1)
    as (_ & _ & Husers2 & H2).
  fold st1 in Hself, Husers, H1. fold st2 in Husers2, H2.
  split; [|done].
  assert (get_user_tags_request decrypt_text cipher (self st1)
          = get_user_tags_request decrypt_text cipher (self st)) as Hreq
    by by rewrite Hself.
  assert (hab_user_id (self st1) = hab_user_id (self st)) as Hid
    by by rewrite Hself.
  rewrite Hreq, Hid, Husers in H2. clear Hreq Hid Hself Husers Husers2.
  case_decide; [|by destruct H2].
  destruct (Users.get _ _) as [user|e]; [|by destruct H2].
  destruct (json_data _) as [[|t l]|]; [by destruct H2| |by destruct H2].
  cbv zeta in H1, H2.
  destruct (upsert_all user (t :: l) (tags_table st)) as [[] tbl1] eqn:Hup;
    cbn [fst snd] in H1; destruct H1 as [_ Htbl1].
  - destruct (nothing_left user _ _ _ Hup) as [Hup2 Hnone].
    rewrite Htbl1 in H2 |- *. unfold Tags.owned_by in *.
    rewrite Hup2 in H2. cbn [fst snd] in H2. destruct H2 as [_ ->].
    apply Hnone.
  - rewrite Htbl1 in H2 |- *.
    rewrite (upsert_all_raised user _ _ _ Hup) in H2. by destruct H2.
Qed.
End Idempotence.

(** ** The properties at work in the small world *)

(** [due_date_field] on a task without and a task with three days. *)
Lemma due_date_field_witness :
  (task_days (self (store_u1 0)) = 0
   ∧ ∃ r, sent (create_task no_decrypt count_isoformat (server 201 None)
                  "key" (store_u1 0)).2 = sent (store_u1 0) ++ [r]
          ∧ field "date" (data r) = None)
  ∧ (task_days (self (store_u1 3)) > 0
     ∧ plus_days (clock (store_u1 3)) 3 = Returned 259200001000
     ∧ ∃ r, sent (edit_task no_decrypt "key" count_isoformat (server 200 None)
                    (store_u1 3)).2 = sent (store_u1 3) ++ [r]
            ∧ field "date" (data r)
              = Some (Str (count_isoformat 259200001000))).
Proof.
  split.
  - split; [reflexivity|].
    apply (proj1 (due_date_field no_decrypt "key" count_isoformat
                    (server 201 None) "key" (store_u1 0))).
    reflexivity.
  - split; [reflexivity|]. split; [reflexivity|].
    apply (proj1 (proj2 (due_date_field no_decrypt "key" count_isoformat
                           (server 200 None) "key" (store_u1 3)))
             eq_refl 259200001000 eq_refl).
Defined.

(** C2, refuted as stated.  With a due date some ten thousand years away
    [task_days] is above 0 and no request with a [date] field goes out:
    [create_task] and [edit_task] raise [OverflowError] at the sum and
    send nothing. *)
Lemma due_date_field_counterexample :
  let st := store_u1 4000000 in
  let created := create_task no_decrypt count_isoformat (server 201 None)
                   "key" st in
  let edited := edit_task no_decrypt "key" count_isoformat (server 200 None)
                  st in
  task_days (self st) > 0
  ∧ created = (Raised OverflowError, st)
  ∧ edited = (Raised OverflowError, st)
  ∧ ¬ (∃ r, sent created.2 = sent st ++ [r]
            ∧ is_Some (field "date" (data r)))
  ∧ ¬ (∃ r, sent edited.2 = sent st ++ [r]
            ∧ is_Some (field "date" (data r))).
Proof.
  split; [reflexivity|]. split; [reflexivity|]. split; [reflexivity|].
  split; intros (r & Hsent & _); vm_compute in Hsent; discriminate.
Qed.

(** [create_task_status] on an answer 201 and an answer 500. *)
Lemma create_task_status_witness :
  (create_task no_decrypt count_isoformat (server 201 None) "key" (store_u1 0)).1
    = Returned true
  ∧ (create_task no_decrypt count_isoformat (server 500 None) "key" (store_u1 0)).1
    = Returned false.
Proof.
  split.
  - destruct (create_task_status no_decrypt count_isoformat (server 201 None)
                "key" (store_u1 0)) as [(Hdays & _)|(r & _ & Hiff & _)].
    + vm_compute in Hdays. discriminate.
    + apply Hiff. reflexivity.
  - destruct (create_task_status no_decrypt count_isoformat (server 500 None)
                "key" (store_u1 0)) as [(Hdays & _)|(r & _ & _ & _ & Hfail)].
    + vm_compute in Hdays. discriminate.
    + apply Hfail. discriminate.
Defined.

(** [edit_task_overwrites_task_id] on an answer 200. *)
Lemma edit_task_overwrites_task_id_witness :
  task_id (self (edit_task no_decrypt "key" count_isoformat (server 200 None)
                   (store_u1 0)).2) = "task-2".
Proof.
  destruct (edit_task_overwrites_task_id no_decrypt "key" count_isoformat
              (server 200 None) (store_u1 0)) as [(Hdays & _)|(r & _ & Hok)].
  - vm_compute in Hdays. discriminate.
  - apply Hok. reflexivity.
Defined.

(** [edit_task_empty_task_id] on the session of [store_u1], whose
    [task_id] is empty. *)
Lemma edit_task_empty_task_id_witness :
  task_id (self (store_u1 0)) = ""
  ∧ ∃ r, sent (edit_task no_decrypt "key" count_isoformat (server 200 None)
                 (store_u1 0)).2 = sent (store_u1 0) ++ [r]
         ∧ method r = PUT
         ∧ url r = "https://habitica.com/api/v3/tasks/".
Proof.
  split; [reflexivity|].
  destruct (edit_task_empty_task_id no_decrypt "key" count_isoformat
              (server 200 None) (store_u1 0) eq_refl)
    as [(Hdays & _)|(r & Hsent & Hmethod & Hurl & _)].
  - vm_compute in Hdays. discriminate.
  - exists r. exact (conj Hsent (conj Hmethod Hurl)).
Defined.

(** C4, refuted as stated.  With an empty [task_id] and a server that
    answers 200, [edit_task] raises nothing and a request goes out: it
    returns [True] after one PUT to the URL ending in [tasks/]. *)
Lemma edit_task_empty_task_id_counterexample :
  let run := edit_task no_decrypt "key" count_isoformat (server 200 None)
               (store_u1 0) in
  task_id (self (store_u1 0)) = ""
  ∧ run.1 = Returned true
  ∧ url <$> sent run.2 = ["https://habitica.com/api/v3/tasks/"]
  ∧ ¬ ((∃ e, run.1 = Raised e) ∧ sent run.2 = sent (store_u1 0)).
Proof.
  split; [reflexivity|]. split; [reflexivity|]. split; [reflexivity|].
  intros [[e Hraised] _]. vm_compute in Hraised. discriminate.
Qed.

(** [login_failure] on a server that answers 401. *)
Lemma login_failure_witness :
  (login no_encrypt (server 401 None) "wrong" fresh_store).1 = Returned false
  ∧ logged_in (self (login no_encrypt (server 401 None) "wrong" fresh_store).2)
    = false
  ∧ users (login no_encrypt (server 401 None) "wrong" fresh_store).2 = []
  ∧ (login_api_key no_decrypt "key" (server 401 None) fresh_store).1
    = Returned false
  ∧ users (login_api_key no_decrypt "key" (server 401 None) fresh_store).2 = [].
Proof.
  destruct (login_failure no_encrypt no_decrypt "key" (server 401 None) "wrong"
              fresh_store) as [(r1 & _ & H1) (r2 & _ & H2)].
  destruct H1 as (Hres1 & _ & _ & Hlogged1 & Husers1 & _); [discriminate|].
  destruct H2 as (Hres2 & _ & _ & _ & Husers2 & _); [discriminate|].
  exact (conj Hres1 (conj Hlogged1 (conj Husers1 (conj Hres2 Husers2)))).
Defined.

(** [login_then_login_api_key_one_row] on a first login of [u1]: the row
    saved under the login name kirska bears the profile name Kirska after
    the second login. *)
Lemma login_then_login_api_key_one_row_witness :
  let st1 := (login no_encrypt (server 200 None) "secret" fresh_store).2 in
  let st2 := (login_api_key no_decrypt "key" (server 200 None) st1).2 in
  users st1 = [ {| Users.user_id := "u1"; Users.api_key := "token";
                   Users.username := "kirska" |} ]
  ∧ Manager.matching Users.user_id "u1" (users st2)
    = [ {| Users.user_id := "u1"; Users.api_key := "token";
           Users.username := "Kirska" |} ].
Proof.
  intros st1 st2.
  assert (login no_encrypt (server 200 None) "secret" fresh_store
          = (Returned true, st1)) as Hfirst by (vm_compute; reflexivity).
  assert (login_api_key no_decrypt "key" (server 200 None) st1
          = (Returned true, st2)) as Hsecond by (vm_compute; reflexivity).
  destruct (login_then_login_api_key_one_row no_encrypt no_decrypt "key"
              (server 200 None) (server 200 None) "secret" fresh_store st1 st2
              Hfirst Hsecond) as (r & _ & _ & _ & Hrow & _).
  split; [reflexivity|]. exact Hrow.
Defined.

(** [tag_sync_snapshot] on the store of [u1] and the remote tags 1 and 2:
    the local tags 2 and 3 become 1 and 2. *)
Lemma tag_sync_snapshot_witness :
  local_tag_ids "u1"
    (get_user_tags no_decrypt (server 200 (Some home_and_work)) "key"
       (store_u1 0)).2
  = remote_tag_ids home_and_work.
Proof.
  apply (tag_sync_snapshot no_decrypt (server 200 (Some home_and_work)) "key"
           (store_u1 0)).
  reflexivity.
Defined.

(** [tag_sync_rows] on the same run, for the remote tag 1. *)
Lemma tag_sync_rows_witness :
  Manager.matching Tags.tag_id "1"
    (tags_table (get_user_tags no_decrypt (server 200 (Some home_and_work))
                   "key" (store_u1 0)).2)
  = [ {| Tags.tag_id := "1"; Tags.tag_owner := "u1";
         Tags.tag_text := u "home" |} ].
Proof.
  refine (proj1 (proj2
    (tag_sync_rows no_decrypt (server 200 (Some home_and_work)) "key"
       (store_u1 0) home_and_work _ eq_refl
       [] {| json_id := "1"; json_name := u "home" |}
       [ {| json_id := "2"; json_name := u "work" |} ] eq_refl)) _).
  vm_compute. intros Hin. inversion Hin as [|? ? ? Hnil]. inversion Hnil.
Defined.

(** C9, refuted as stated.  The remote tag café is stored under its id
    for [u1], and the stored text is not its name: the codec has written
    the last letter as [\xe9]. *)
Lemma tag_sync_rows_counterexample :
  let run := get_user_tags no_decrypt (server 200 (Some [cafe])) "key"
               (store_u1 0) in
  run.1 = Returned (Data [cafe])
  ∧ Manager.matching Tags.tag_id (json_id cafe) (tags_table run.2)
    = [ {| Tags.tag_id := "1"; Tags.tag_owner := "u1";
           Tags.tag_text := u "caf\xe9" |} ]
  ∧ u "caf\xe9" ≠ json_name cafe.
Proof. repeat split. by vm_compute. Qed.

(** [tag_sync_failure] on an empty remote list: the tags 2 and 3 stay. *)
Lemma tag_sync_failure_witness :
  let run := get_user_tags no_decrypt (server 200 (Some [])) "key" (store_u1 0) in
  tags_table run.2 = tags_table (store_u1 0) ∧ run.1 = Returned False_.
Proof.
  intros run.
  destruct (tag_sync_failure no_decrypt (server 200 (Some [])) "key" (store_u1 0))
    as (_ & _ & Htbl & _ & _ & Hres & _).
  - right. right. reflexivity.
  - split; [exact Htbl|]. eapply Hres. reflexivity.
Defined.

(** C3, refuted as stated.  The [Users] table has no row for the session's
    user; the server answers 200 with an empty list.  [get_user_tags] does
    not return [False]: the lookup raises [DoesNotExist]. *)
Lemma tag_sync_failure_counterexample :
  let run := get_user_tags no_decrypt (server 200 (Some [])) "key"
               store_without_user in
  json_data (api_tags (server 200 (Some []))
               (get_user_tags_request no_decrypt "key" (self store_without_user)))
    = Some []
  ∧ run.1 = Raised DoesNotExist
  ∧ ¬ (run.1 = Returned False_
       ∧ users run.2 = users store_without_user
       ∧ tags_table run.2 = tags_table store_without_user).
Proof.
  split; [reflexivity|]. split; [reflexivity|].
  intros [Hres _]. vm_compute in Hres. discriminate.
Qed.

(** * Further properties of the methods *)

(** ** What the two logins store *)

Lemma Users_update_or_create_get k key name tbl tbl' :
  Users.update_or_create k key name tbl = Returned tbl' →
  Users.get k tbl'
  = Returned {| Users.user_id := k; Users.api_key := key;
                Users.username := name |}.
Proof.
  intros Hup. unfold Users.update_or_create in Hup.
  unfold Users.get, Manager.get.
  apply update_or_create_matching in Hup; [|done..].
  destruct Hup as [->|(r & Hr & ->)]; [done|].
  assert (r ∈ Manager.matching Users.user_id k tbl) as Hin by (rewrite Hr; left).
  apply list_elem_of_filter in Hin as [Hid _].
  unfold Users.defaults. by rewrite Hid.
Qed.

Section LoginStores.
Variable encrypt_text : string → string.
Variable decrypt_text : string → string → string.
Variable CIPHER_FILE : string.
Variable api : habitica.

(** X1.  When [login] returns [True], the answer had status 200, the
    session holds the id and the name from the answer and the encrypted
    token, it is logged in, and looking the id up in [Users] gives exactly
    one row, with that name and the encrypted token. *)
Theorem login_stores_credentials password st st' :
  login encrypt_text api password st = (Returned true, st') →
  ∃ r, sent st' = sent st ++ [r]
    ∧ let req := api_user_auth_local_login api r in
      let d := json_data req in
      status_code req = 200
      ∧ hab_user_id (self st') = data_id d
      ∧ api_token (self st') = encrypt_text (data_apiToken d)
      ∧ username (self st') = data_username d
      ∧ logged_in (self st') = true
      ∧ Users.get (data_id d) (users st')
        = Returned {| Users.user_id := data_id d;
                      Users.api_key := encrypt_text (data_apiToken d);
                      Users.username := data_username d |}.
Proof.
  unfold login. run. case_decide as Hcode; [|done].
  cbn. destruct (Users.update_or_create _ _ _ _) as [tbl|e] eqn:Hup; [|done].
  intros [= <-]. cbn. eexists. split; [done|]. cbn zeta.
  repeat split; try done. by eapply Users_update_or_create_get.
Qed.

(** X2.  When [login_api_key] returns [True], the answer had status 200,
    the session keeps its id and token, takes the profile name from the
    answer and is logged in, and looking the id up in [Users] gives exactly
    one row, with the session's token and the new name. *)
Theorem login_api_key_stores_profile st st' :
  login_api_key decrypt_text CIPHER_FILE api st = (Returned true, st') →
  ∃ r, sent st' = sent st ++ [r]
    ∧ let req := api_user api r in
      status_code req = 200
      ∧ hab_user_id (self st') = hab_user_id (self st)
      ∧ api_token (self st') = api_token (self st)
      ∧ username (self st') = data_profile_name (json_data req)
      ∧ logged_in (self st') = true
      ∧ Users.get (hab_user_id (self st)) (users st')
        = Returned {| Users.user_id := hab_user_id (self st);
                      Users.api_key := api_token (self st);
                      Users.username := data_profile_name (json_data req) |}.
Proof.
  unfold login_api_key. run. case_decide as Hcode; [|done].
  cbn. destruct (Users.update_or_create _ _ _ _) as [tbl|e] eqn:Hup; [|done].
  intros [= <-]. cbn. eexists. split; [done|]. cbn zeta.
  repeat split; try done. by eapply Users_update_or_create_get.
Qed.

(** X3.  [login] raises exactly when the answer has status 200 and [Users]
    holds more than one row with the id of the answer.  The exception is
    [MultipleObjectsReturned]; [Users] and [logged_in] are then as before,
    but the session already holds the id of the answer. *)
Theorem login_raises password st :
  ∃ r, sent (login encrypt_text api password st).2 = sent st ++ [r]
    ∧ let req := api_user_auth_local_login api r in
      let run := login encrypt_text api password st in
      ((∃ e, run.1 = Raised e)
       ↔ status_code req = 200
         ∧ (1 < length (Manager.matching Users.user_id
                          (data_id (json_data req)) (users st)))%nat)
      ∧ ((∃ e, run.1 = Raised e) →
         run.1 = Raised MultipleObjectsReturned
         ∧ users run.2 = users st
         ∧ logged_in (self run.2) = logged_in (self st)
         ∧ hab_user_id (self run.2) = data_id (json_data req)).
Proof.
  unfold login. run. case_decide as Hcode.
  - cbn. unfold Users.update_or_create, Manager.update_or_create.
    destruct (Manager.matching _ _ _) as [|r0 [|r1 m]] eqn:Hm; cbn;
      eexists; (split; [done|]); cbn zeta; rewrite Hm; cbn.
    + split; [|by intros [e ?]]. split; [by intros [e ?]|]. intros [_ ?]. lia.
    + split; [|by intros [e ?]]. split; [by intros [e ?]|]. intros [_ ?]. lia.
    + split; [|done]. split; [|eauto]. intros _. split; [done|lia].
  - cbn. eexists. split; [done|]. cbn zeta.
    split; [|by intros [e ?]]. split; [by intros [e ?]|]. by intros [? _].
Qed.
End LoginStores.

(** ** The task methods and the store *)

Section TaskFrame.
Variable decrypt_text : string → string → string.
Variable CIPHER_FILE : string.
Variable isoformat : datetime → string.
Variable api : habitica.

Lemma set_task_id_same s : set_task_id (task_id s) s = s.
Proof. by destruct s. Qed.

Lemma set_return_code_same s : set_return_code (return_code s) s = s.
Proof. by destruct s. Qed.

Lemma create_task_frame cipher st :
  let run := create_task decrypt_text isoformat api cipher st in
  users run.2 = users st ∧ tags_table run.2 = tags_table st
  ∧ stdout run.2 = stdout st
  ∧ (sent run.2 = sent st ∨ ∃ r, sent run.2 = sent st ++ [r])
  ∧ (∃ code id, self run.2 = set_task_id id (set_return_code code (self st)))
  ∧ (run.1 = Raised OverflowError → run.2 = st).
Proof.
  intros run.
  destruct (due_date isoformat (clock st) (task_days (self st)))
    as [date|e] eqn:Hdue.
  - destruct (create_task_sends decrypt_text isoformat api cipher st _ Hdue)
      as (r & Hs & _ & _ & _ & _ & Hres & Hself & Hu & Ht & Ho & _).
    fold run in Hs, Hres, Hself, Hu, Ht, Ho.
    split_and!; [done|done|done|eauto| |by rewrite Hres].
    rewrite Hself. case_decide; [eauto|].
    eexists _, _. by rewrite set_task_id_same.
  - unfold run. rewrite (create_task_raises decrypt_text isoformat api cipher st e Hdue).
    split_and!; [done|done|done|by left| |done].
    exists (return_code (self st)), (task_id (self st)). cbn.
    by rewrite set_return_code_same, set_task_id_same.
Qed.

Lemma edit_task_frame st :
  let run := edit_task decrypt_text CIPHER_FILE isoformat api st in
  users run.2 = users st ∧ tags_table run.2 = tags_table st
  ∧ stdout run.2 = stdout st
  ∧ (sent run.2 = sent st ∨ ∃ r, sent run.2 = sent st ++ [r])
  ∧ (∃ code id, self run.2 = set_task_id id (set_return_code code (self st)))
  ∧ (run.1 = Raised OverflowError → run.2 = st).
Proof.
  intros run.
  destruct (due_date isoformat (clock st) (task_days (self st)))
    as [date|e] eqn:Hdue.
  - destruct (edit_task_sends decrypt_text CIPHER_FILE isoformat api st _ Hdue)
      as (r & Hs & _ & _ & _ & _ & Hres & Hself & Hu & Ht & Ho & _).
    fold run in Hs, Hres, Hself, Hu, Ht, Ho.
    split_and!; [done|done|done|eauto| |by rewrite Hres].
    rewrite Hself. case_decide; [eauto|].
    eexists _, _. by rewrite set_task_id_same.
  - unfold run. rewrite (edit_task_raises decrypt_text CIPHER_FILE isoformat api st e Hdue).
    split_and!; [done|done|done|by left| |done].
    exists (return_code (self st)), (task_id (self st)). cbn.
    by rewrite set_return_code_same, set_task_id_same.
Qed.

(** X4.  Whatever their outcome, [create_task] and [edit_task] leave the
    tables and the console alone and send at most one request; of the
    session they change [return_code] and [task_id] only.  When they raise
    [OverflowError] nothing at all has changed. *)
Theorem task_methods_frame cipher st :
  let created := create_task decrypt_text isoformat api cipher st in
  let edited := edit_task decrypt_text CIPHER_FILE isoformat api st in
  let frame (run : outcome bool * state) :=
    users run.2 = users st ∧ tags_table run.2 = tags_table st
    ∧ stdout run.2 = stdout st
    ∧ (sent run.2 = sent st ∨ ∃ r, sent run.2 = sent st ++ [r])
    ∧ (∃ code id, self run.2 = set_task_id id (set_return_code code (self st)))
    ∧ (run.1 = Raised OverflowError → run.2 = st) in
  frame created ∧ frame edited.
Proof. split; [apply create_task_frame|apply edit_task_frame]. Qed.

(** X5.  A number of days that is not above 0 means no due date, also when
    it is negative: no date is computed, nothing is raised, and the one
    request goes out without a [date] field.  In general a request of
    [create_task] or [edit_task] has a [date] field exactly when
    [task_days] is above 0. *)
Theorem date_field_iff cipher st :
  let created := create_task decrypt_text isoformat api cipher st in
  let edited := edit_task decrypt_text CIPHER_FILE isoformat api st in
  (task_days (self st) <= 0 →
     (∃ r b, created.1 = Returned b ∧ sent created.2 = sent st ++ [r]
             ∧ field "date" (data r) = None)
     ∧ (∃ r b, edited.1 = Returned b ∧ sent edited.2 = sent st ++ [r]
               ∧ field "date" (data r) = None))
  ∧ (∀ r, sent created.2 = sent st ++ [r] →
          is_Some (field "date" (data r)) ↔ task_days (self st) > 0)
  ∧ (∀ r, sent edited.2 = sent st ++ [r] →
          is_Some (field "date" (data r)) ↔ task_days (self st) > 0).
Proof.
  intros created edited.
  destruct (due_date isoformat (clock st) (task_days (self st)))
    as [date|e] eqn:Hdue.
  - destruct (create_task_sends decrypt_text isoformat api cipher st _ Hdue)
      as (r1 & Hs1 & _ & _ & _ & Hd1 & Hres1 & _).
    destruct (edit_task_sends decrypt_text CIPHER_FILE isoformat api st _ Hdue)
      as (r2 & Hs2 & _ & _ & _ & Hd2 & Hres2 & _).
    fold created in Hs1, Hres1. fold edited in Hs2, Hres2.
    apply due_date_Returned in Hdue.
    split; [|split].
    + intros Hdays. rewrite decide_False in Hdue by lia. subst date.
      split; eexists _, _; eauto.
    + intros r Hr. rewrite Hs1 in Hr. apply app_inj_tail in Hr as [_ <-].
      rewrite Hd1. case_decide; [destruct Hdue as (d & _ & ->)|subst date];
        cbn; split; intros Hdate; first [done | by eauto | by destruct Hdate].
    + intros r Hr. rewrite Hs2 in Hr. apply app_inj_tail in Hr as [_ <-].
      rewrite Hd2. case_decide; [destruct Hdue as (d & _ & ->)|subst date];
        cbn; split; intros Hdate; first [done | by eauto | by destruct Hdate].
  - assert (created = (Raised e, st)) as Hc
      by apply create_task_raises, Hdue.
    assert (edited = (Raised e, st)) as He
      by apply edit_task_raises, Hdue.
    apply due_date_Raised in Hdue as (Hdays & _ & _).
    rewrite Hc, He. cbn. split; [lia|].
    split; intros r Hr; exfalso; symmetry in Hr;
      rewrite <- (app_nil_r (sent st)) in Hr at 2;
      by apply app_inv_head in Hr.
Qed.

End TaskFrame.

(** ** Tables whose keys are unique *)

Section ManagerUnique.
Context {row : Type} (key : row → string).
Variable k : string.
Variable created : row.
Variable defaults : row → row.
Hypothesis key_created : key created = k.
Hypothesis key_defaults : ∀ r, key (defaults r) = key r.

Lemma keys_update (tbl : list row) :
  key <$> (Manager.update key k defaults <$> tbl) = key <$> tbl.
Proof.
  rewrite <- list_fmap_compose. apply list_fmap_ext.
  intros i r _. cbn. by apply key_update.
Qed.

(** [update_or_create] keeps the keys in place and adds at most one. *)
Lemma update_or_create_keys tbl tbl' :
  Manager.update_or_create key k created defaults tbl = Returned tbl' →
  ((k ∉ key <$> tbl) ∧ key <$> tbl' = (key <$> tbl) ++ [k])
  ∨ key <$> tbl' = key <$> tbl.
Proof.
  intros [[Hm ->]|(r & Hm & ->)]%update_or_create_Returned.
  - left. split.
    + intros (r & Hr & Hin)%list_elem_of_fmap.
      exact (filter_nil_not_elem_of (λ r, key r = k) tbl r Hm (eq_sym Hr) Hin).
    + by rewrite fmap_app, fmap_cons, key_created.
  - right. apply keys_update.
Qed.

Lemma update_or_create_NoDup tbl tbl' :
  NoDup (key <$> tbl) →
  Manager.update_or_create key k created defaults tbl = Returned tbl' →
  NoDup (key <$> tbl').
Proof.
  intros Hnd [[Hk ->]| ->]%update_or_create_keys; [|done].
  apply NoDup_app. split; [done|]. split; [|apply NoDup_singleton].
  intros x Hx ->%list_elem_of_singleton. done.
Qed.

Lemma matching_NoDup tbl :
  NoDup (key <$> tbl) → (length (Manager.matching key k tbl) ≤ 1)%nat.
Proof.
  unfold Manager.matching. induction tbl as [|r tbl IH]; [cbn; lia|].
  rewrite fmap_cons, NoDup_cons. intros [Hr Hnd].
  rewrite filter_cons. case_decide as Hk; [|auto].
  assert (filter (λ r, key r = k) tbl = []) as ->; [|cbn; lia].
  destruct (filter (λ r, key r = k) tbl) as [|r' m] eqn:Hm; [done|].
  assert (r' ∈ filter (λ r, key r = k) tbl) as Hin by (rewrite Hm; left).
  apply list_elem_of_filter in Hin as [Hk' Hin].
  exfalso. apply Hr. rewrite Hk, <- Hk'. by apply list_elem_of_fmap_2.
Qed.

(** On unique keys [update_or_create] does not raise. *)
Lemma update_or_create_total tbl :
  NoDup (key <$> tbl) →
  ∃ tbl', Manager.update_or_create key k created defaults tbl = Returned tbl'.
Proof.
  intros Hle%matching_NoDup. unfold Manager.update_or_create.
  destruct (Manager.matching key k tbl) as [|r [|r' m]]; [eauto|eauto|].
  cbn in Hle. lia.
Qed.

Lemma update_or_create_prefix tbl tbl' :
  Manager.update_or_create key k created defaults tbl = Returned tbl' →
  (key <$> tbl) `prefix_of` (key <$> tbl').
Proof.
  intros [[_ ->]| ->]%update_or_create_keys; [|done].
  by apply prefix_app_r.
Qed.
End ManagerUnique.

Lemma delete_NoDup {row} (key : row → string) (P : row → Prop)
    `{∀ r, Decision (P r)} (tbl : list row) :
  NoDup (key <$> tbl) → NoDup (key <$> filter P tbl).
Proof.
  intros Hnd. apply (sublist_NoDup _ (key <$> tbl)); [done|].
  apply fmap_sublist, sublist_filter.
Qed.

Section UpsertUnique.
Variable user : Users.row.

Lemma upsert_all_NoDup tags_json : ∀ tbl,
  NoDup (Tags.tag_id <$> tbl) →
  NoDup (Tags.tag_id <$> (upsert_all user tags_json tbl).2).
Proof.
  induction tags_json as [|t rest IH]; intros tbl Hnd; [done|]. cbn.
  destruct (Tags.update_or_create _ _ _ _) as [tbl1|e] eqn:Hup; [|done].
  apply IH. unfold Tags.update_or_create in Hup.
  apply update_or_create_NoDup in Hup; done.
Qed.

(** On unique tag ids the first loop runs to its end. *)
Lemma upsert_all_total tags_json : ∀ tbl,
  NoDup (Tags.tag_id <$> tbl) → (upsert_all user tags_json tbl).1 = true.
Proof.
  induction tags_json as [|t rest IH]; intros tbl Hnd; [done|]. cbn.
  destruct (update_or_create_total Tags.tag_id (json_id t)
              {| Tags.tag_id := json_id t; Tags.tag_owner := Users.user_id user;
                 Tags.tag_text := unicode_escape (json_name t) |}
              (Tags.defaults (Users.user_id user) (unicode_escape (json_name t)))
              tbl Hnd) as [tbl1 Hup].
  unfold Tags.update_or_create. rewrite Hup. apply IH.
  apply update_or_create_NoDup in Hup; done.
Qed.

(** The first loop keeps every id where it is and appends the new ones. *)
Lemma upsert_all_prefix tags_json : ∀ tbl,
  (Tags.tag_id <$> tbl)
    `prefix_of` (Tags.tag_id <$> (upsert_all user tags_json tbl).2).
Proof.
  induction tags_json as [|t rest IH]; intros tbl; [done|]. cbn.
  destruct (Tags.update_or_create _ _ _ _) as [tbl1|e] eqn:Hup; [|done].
  etrans; [|apply IH]. unfold Tags.update_or_create in Hup.
  apply update_or_create_prefix in Hup; done.
Qed.

Lemma unmatched_elem_other x tags_json ids :
  x ∉ json_id <$> tags_json → x ∈ unmatched tags_json ids ↔ x ∈ ids.
Proof.
  intros Hx. pose proof (unmatched_other x tags_json ids Hx) as Heq.
  destruct (decide (x ∈ ids)) as [Hin|Hout];
    destruct (decide (x ∈ unmatched tags_json ids)) as [Hin'|Hout']; try tauto.
  - apply not_elem_of_filter_eq in Hout'. rewrite Heq in Hout'.
    by apply not_elem_of_filter_eq in Hout'.
  - apply not_elem_of_filter_eq in Hout. rewrite <- Heq in Hout.
    by apply not_elem_of_filter_eq in Hout.
Qed.
End UpsertUnique.

(** ** The codec writes printable ASCII *)

Lemma hexdigit_printable n : (n < 16)%N → printable (hexdigit n).
Proof.
  intros Hn. unfold printable, hexdigit.
  destruct (N.ltb_spec n 10); lia.
Qed.

Lemma hex_printable digits : ∀ ch, Forall printable (hex digits ch).
Proof.
  induction digits as [|d IH]; intros ch; [constructor|]. cbn [hex].
  apply Forall_app. split; [apply IH|].
  apply Forall_singleton, hexdigit_printable. by apply N.mod_lt.
Qed.

Lemma escape_char_printable ch : Forall printable (escape_char ch).
Proof.
  assert (printable 92) as Hbackslash by (unfold printable; lia).
  unfold escape_char.
  destruct (N.eqb_spec ch 92); [by repeat constructor|].
  destruct (N.leb_spec 65536 ch).
  { apply Forall_app. split; [|apply hex_printable].
    repeat constructor; unfold printable; lia. }
  destruct (N.leb_spec 256 ch).
  { apply Forall_app. split; [|apply hex_printable].
    repeat constructor; unfold printable; lia. }
  destruct (N.eqb_spec ch 9); [repeat constructor; unfold printable; lia|].
  destruct (N.eqb_spec ch 10); [repeat constructor; unfold printable; lia|].
  destruct (N.eqb_spec ch 13); [repeat constructor; unfold printable; lia|].
  destruct (N.ltb_spec ch 32); cbn [orb].
  { apply Forall_app. split; [|apply hex_printable].
    repeat constructor; unfold printable; lia. }
  destruct (N.leb_spec 127 ch).
  { apply Forall_app. split; [|apply hex_printable].
    repeat constructor; unfold printable; lia. }
  repeat constructor; unfold printable; lia.
Qed.

Lemma unicode_escape_printable s : Forall printable (unicode_escape s).
Proof.
  unfold unicode_escape. induction s as [|ch s IH]; [constructor|].
  cbn. apply Forall_app. split; [apply escape_char_printable|apply IH].
Qed.

(** ** More on what a tag synchronisation does *)

Section OtherOwners.
Variable user : Users.row.
Let uid := Users.user_id user.

(** The tags of another owner after both loops. *)
Lemma other_owner tags_json tbl tbl1 v :
  v ≠ uid →
  upsert_all user tags_json tbl = (true, tbl1) →
  let ids := unmatched tags_json
               (Tags.tag_id <$> Manager.matching Tags.tag_owner uid tbl) in
  ∀ x, x ∈ Tags.tag_id <$> Manager.matching Tags.tag_owner v (without ids tbl1)
       ↔ x ∈ Tags.tag_id <$> Manager.matching Tags.tag_owner v tbl
         ∧ (x ∉ json_id <$> tags_json)
         ∧ (x ∉ Tags.tag_id <$> Manager.matching Tags.tag_owner uid tbl).
Proof.
  intros Hv Hrun ids x. split.
  - intros (r & -> & Hr)%list_elem_of_fmap.
    apply list_elem_of_filter in Hr as [Howner Hr].
    apply list_elem_of_filter in Hr as [Hleft Hr].
    assert (Tags.tag_id r ∉ json_id <$> tags_json) as Hnot.
    { intros Hin.
      destruct (last_entry _ _ Hin) as (pre & t & post & Hsplit & Hid & Hlast).
      rewrite <- Hid in Hlast.
      pose proof (upsert_all_last user _ _ _ _ _ _ Hrun Hsplit Hlast) as Hrow.
      assert (r ∈ Manager.matching Tags.tag_id (json_id t) tbl1) as Hm
        by by apply list_elem_of_filter.
      rewrite Hrow in Hm. apply list_elem_of_singleton in Hm.
      subst r. by apply Hv. }
    split; [|split; [done|]].
    + apply list_elem_of_fmap. exists r. split; [done|].
      apply list_elem_of_filter. split; [done|].
      assert (r ∈ Manager.matching Tags.tag_id (Tags.tag_id r) tbl1) as Hm
        by by apply list_elem_of_filter.
      rewrite (upsert_all_other user _ _ _ _ Hnot Hrun) in Hm.
      by apply list_elem_of_filter in Hm as [_ ?].
    + intros Hmine. apply Hleft. by apply unmatched_elem_other.
  - intros ((r & -> & Hr)%list_elem_of_fmap & Hnot & Hmine).
    apply list_elem_of_filter in Hr as [Howner Hr].
    apply list_elem_of_fmap. exists r. split; [done|].
    apply list_elem_of_filter. split; [done|].
    apply list_elem_of_filter. split.
    + intros Hleft. apply Hmine. by eapply unmatched_subseteq.
    + assert (r ∈ Manager.matching Tags.tag_id (Tags.tag_id r) tbl) as Hm
        by by apply list_elem_of_filter.
      rewrite <- (upsert_all_other user _ _ _ _ Hnot Hrun) in Hm.
      by apply list_elem_of_filter in Hm as [_ ?].
Qed.

(** The ids left for the second loop are the owner's ids that the remote
    list does not name. *)
Lemma unmatched_ids tags_json tbl tbl1 :
  upsert_all user tags_json tbl = (true, tbl1) →
  let mine := Tags.tag_id <$> Manager.matching Tags.tag_owner uid tbl in
  ∀ x, x ∈ unmatched tags_json mine ↔ x ∈ mine ∧ x ∉ json_id <$> tags_json.
Proof.
  intros Hrun mine x.
  destruct (upsert_all_unmatched user _ _ _ _ Hrun (covered_owned user tbl))
    as [_ Hgone].
  split.
  - intros Hx. split; [by eapply unmatched_subseteq|].
    intros Hin. by apply (Hgone x Hin).
  - intros [Hx Hnot]. by apply unmatched_elem_other.
Qed.
End OtherOwners.

Section TagSyncMore.
Variable decrypt_text : string → string → string.
Variable api : habitica.
Variable cipher : string.

Lemma delete_leftover_stdout ids : ∀ st,
  stdout (delete_leftover ids st).2 = stdout st ++ (deleting <$> ids).
Proof.
  induction ids as [|x ids IH]; intros st.
  - cbn. by rewrite app_nil_r.
  - cbn [delete_leftover]. run.
    match goal with |- context [delete_leftover ids ?s] => rewrite (IH s) end.
    cbn. by rewrite <- app_assoc.
Qed.

(** What [get_user_tags] prints. *)
Lemma get_user_tags_stdout st :
  let run := get_user_tags decrypt_text api cipher st in
  match run.1 with
  | Returned (Data l) =>
      stdout run.2
      = stdout st
        ++ (deleting <$>
            unmatched l
              (Tags.tag_id <$> Manager.matching Tags.tag_owner
                                 (hab_user_id (self st)) (tags_table st)))
  | _ => stdout run.2 = stdout st
  end.
Proof.
  unfold get_user_tags. run.
  case_decide as Hcode; run; [|done].
  destruct (Users.get _ _) as [user|e] eqn:Hget; [|done].
  apply Users_get_user_id in Hget.
  destruct (json_data _) as [[|t l]|]; [done| |done].
  match goal with |- context [add_update_tags user (t :: l) ?ids ?s] =>
    pose proof (add_update_tags_run user (t :: l) ids s) as Hloop;
    destruct (add_update_tags user (t :: l) ids s) as [o st1] end.
  cbn [fst snd tags_table self users sent stdout clock] in Hloop.
  destruct Hloop as (_ & _ & _ & _ & Hout & _ & Hres).
  destruct (upsert_all user (t :: l) (tags_table st)) as [[] tbl1];
    cbn [fst snd] in *.
  - subst o.
    pose proof (delete_leftover_stdout
                  (unmatched (t :: l)
                     (Tags.tag_id <$> Tags.owned_by user (tags_table st))) st1)
      as Hprint.
    destruct (delete_leftover_run
                (unmatched (t :: l)
                   (Tags.tag_id <$> Tags.owned_by user (tags_table st))) st1)
      as (Hret & _).
    destruct (delete_leftover
                (unmatched (t :: l)
                   (Tags.tag_id <$> Tags.owned_by user (tags_table st))) st1)
      as [o2 st2].
    cbn [fst snd] in *. subst o2. cbn [fst snd].
    rewrite Hprint, Hout. unfold Tags.owned_by. cbn in Hget. by rewrite Hget.
  - destruct Hres as [e ->]. by cbn.
Qed.

(** X7.  A successful synchronisation for one user takes from every other
    user exactly the tags whose id the remote list names or the
    synchronising user also owned: the update and the deletion go by
    [tag_id] alone. *)
Theorem tag_sync_other_users st l st' v :
  get_user_tags decrypt_text api cipher st = (Returned (Data l), st') →
  v ≠ hab_user_id (self st) →
  local_tag_ids v st'
  = local_tag_ids v st
    ∖ (remote_tag_ids l ∪ local_tag_ids (hab_user_id (self st)) st).
Proof.
  intros (user & _ & Huid & Hup & Htbl)%get_user_tags_Data Hv.
  unfold local_tag_ids, remote_tag_ids. apply set_eq. intros x.
  rewrite elem_of_difference, elem_of_union, !elem_of_list_to_set.
  rewrite Htbl, <- Huid. unfold Tags.owned_by.
  rewrite (other_owner user l _ _ v) by (by rewrite ?Huid). tauto.
Qed.

(** X8.  On a store whose tag ids are unique and that has exactly one
    [Users] row for the session, [get_user_tags] raises nothing: it
    returns the fetched list when the answer has status 200 and a
    non-empty list, and [False] otherwise. *)
Theorem tag_sync_succeeds st user :
  unique_tag_ids st →
  Users.get (hab_user_id (self st)) (users st) = Returned user →
  let req := api_tags api (get_user_tags_request decrypt_text cipher (self st)) in
  (get_user_tags decrypt_text api cipher st).1
  = Returned (if decide (status_code req = 200) then
                match json_data req with
                | Some (t :: l) => Data (t :: l)
                | _ => False_
                end
              else False_).
Proof.
  intros Hunique Hget req.
  destruct (get_user_tags_run decrypt_text api cipher st) as (_ & _ & _ & H).
  fold req in H. case_decide; [|by destruct H].
  rewrite Hget in H.
  destruct (json_data req) as [[|t l]|]; [by destruct H| |by destruct H].
  cbv zeta in H. rewrite (upsert_all_total user (t :: l) _ Hunique) in H.
  by destruct H.
Qed.

(** X9.  Every method keeps the keys of both tables unique, whatever its
    outcome. *)
Theorem store_stays_unique encrypt_text CIPHER_FILE isoformat password st :
  unique_user_ids st → unique_tag_ids st →
  let keeps (st' : state) := unique_user_ids st' ∧ unique_tag_ids st' in
  keeps (login encrypt_text api password st).2
  ∧ keeps (login_api_key decrypt_text CIPHER_FILE api st).2
  ∧ keeps (create_task decrypt_text isoformat api cipher st).2
  ∧ keeps (edit_task decrypt_text CIPHER_FILE isoformat api st).2
  ∧ keeps (get_user_tags decrypt_text api cipher st).2.
Proof.
  intros Husers Htags keeps. unfold keeps, unique_user_ids, unique_tag_ids in *.
  repeat split.
  - unfold login. run. case_decide; [|done]. cbn.
    destruct (Users.update_or_create _ _ _ _) as [tbl|e] eqn:Hup; [|done].
    cbn. unfold Users.update_or_create in Hup.
    apply update_or_create_NoDup in Hup; done.
  - unfold login. run. case_decide; [|done]. cbn.
    by destruct (Users.update_or_create _ _ _ _).
  - unfold login_api_key. run. case_decide; [|done]. cbn.
    destruct (Users.update_or_create _ _ _ _) as [tbl|e] eqn:Hup; [|done].
    cbn. unfold Users.update_or_create in Hup.
    apply update_or_create_NoDup in Hup; done.
  - unfold login_api_key. run. case_decide; [|done]. cbn.
    by destruct (Users.update_or_create _ _ _ _).
  - destruct (create_task_frame decrypt_text isoformat api cipher st)
      as (-> & _). done.
  - destruct (create_task_frame decrypt_text isoformat api cipher st)
      as (_ & -> & _). done.
  - destruct (edit_task_frame decrypt_text CIPHER_FILE isoformat api st)
      as (-> & _). done.
  - destruct (edit_task_frame decrypt_text CIPHER_FILE isoformat api st)
      as (_ & -> & _). done.
  - destruct (get_user_tags_run decrypt_text api cipher st) as (_ & _ & -> & _).
    done.
  - destruct (get_user_tags_run decrypt_text api cipher st) as (_ & _ & _ & H).
    case_decide; [|by destruct H as [_ ->]].
    destruct (Users.get _ _) as [user|e]; [|by destruct H as [_ ->]].
    destruct (json_data _) as [[|t l]|];
      [by destruct H as [_ ->]| |by destruct H as [_ ->]].
    cbv zeta in H.
    pose proof (upsert_all_NoDup user (t :: l) _ Htags) as Hnd.
    destruct (upsert_all user (t :: l) (tags_table st)) as [[] tbl1];
      cbn [fst snd] in *; destruct H as [_ ->]; [|done].
    by apply delete_NoDup.
Qed.
End TagSyncMore.

Section TagSyncEffects.
Variable decrypt_text : string → string → string.
Variable api : habitica.
Variable cipher : string.

(** X10.  A successful synchronisation prints one line [deleting tag ...]
    for each id it deletes and nothing else; the ids so announced are the
    ids that the user owned before and the remote list does not name. *)
Theorem tag_sync_announces st l st' :
  get_user_tags decrypt_text api cipher st = (Returned (Data l), st') →
  ∃ ids, stdout st' = stdout st ++ (deleting <$> ids)
    ∧ list_to_set ids
      = local_tag_ids (hab_user_id (self st)) st ∖ remote_tag_ids l.
Proof.
  intros Hrun. pose proof (get_user_tags_stdout decrypt_text api cipher st) as Hout.
  cbv zeta in Hout. rewrite Hrun in Hout. cbn [fst snd] in Hout.
  apply get_user_tags_Data in Hrun as (user & _ & Huid & Hup & _).
  eexists. split; [exact Hout|].
  unfold local_tag_ids, remote_tag_ids. apply set_eq. intros x.
  rewrite elem_of_difference, !elem_of_list_to_set, <- Huid.
  by apply (unmatched_ids user l _ _ Hup).
Qed.

(** X11.  Whatever its outcome, [get_user_tags] sends one request, leaves
    [Users] alone and changes nothing of the session but [return_code]: in
    particular the attribute [tags] is not refreshed from the fetched
    list. *)
Theorem tag_sync_session_frame st :
  let run := get_user_tags decrypt_text api cipher st in
  let r := get_user_tags_request decrypt_text cipher (self st) in
  sent run.2 = sent st ++ [r]
  ∧ self run.2 = set_return_code (status_code (api_tags api r)) (self st)
  ∧ tags (self run.2) = tags (self st)
  ∧ logged_in (self run.2) = logged_in (self st)
  ∧ users run.2 = users st.
Proof.
  destruct (get_user_tags_run decrypt_text api cipher st)
    as (Hsent & Hself & Husers & _).
  cbv zeta. rewrite Hself. done.
Qed.

(** X12.  After a successful synchronisation every row with an id of the
    remote list belongs to the session's user and its text is printable
    ASCII, whatever code points the remote name had. *)
Theorem tag_sync_text_printable st l st' r :
  get_user_tags decrypt_text api cipher st = (Returned (Data l), st') →
  r ∈ tags_table st' →
  Tags.tag_id r ∈ json_id <$> l →
  Tags.tag_owner r = hab_user_id (self st)
  ∧ Forall printable (Tags.tag_text r).
Proof.
  intros (user & _ & Huid & Hup & Htbl)%get_user_tags_Data Hr Hid.
  rewrite Htbl in Hr. apply list_elem_of_filter in Hr as [_ Hr].
  destruct (last_entry _ _ Hid) as (pre & t & post & Hsplit & Ht & Hlast).
  rewrite <- Ht in Hlast.
  pose proof (upsert_all_last user _ _ _ _ _ _ Hup Hsplit Hlast) as Hrow.
  assert (r ∈ Manager.matching Tags.tag_id (json_id t)
                (upsert_all user l (tags_table st)).2) as Hm
    by by apply list_elem_of_filter.
  rewrite Hrow in Hm. apply list_elem_of_singleton in Hm. subst r.
  split; [done|]. apply unicode_escape_printable.
Qed.

(** X13.  When [get_user_tags] does not return a list (it returns [False]
    or raises), it has deleted nothing and printed nothing: the tag ids of
    the table before are still there, in their places, followed by the ids
    of the rows that the interrupted loop had created. *)
Theorem tag_sync_no_list_no_deletion st :
  let run := get_user_tags decrypt_text api cipher st in
  (∀ l, run.1 ≠ Returned (Data l)) →
  (Tags.tag_id <$> tags_table st) `prefix_of` (Tags.tag_id <$> tags_table run.2)
  ∧ stdout run.2 = stdout st
  ∧ users run.2 = users st.
Proof.
  intros run Hno.
  pose proof (get_user_tags_stdout decrypt_text api cipher st) as Hout.
  destruct (get_user_tags_run decrypt_text api cipher st) as (_ & _ & Husers & H).
  fold run in Hout, Husers, H.
  split; [|split; [|done]].
  - case_decide; [|by destruct H as [_ ->]].
    destruct (Users.get _ _) as [user|e]; [|by destruct H as [_ ->]].
    destruct (json_data _) as [[|t l]|];
      [by destruct H as [_ ->]| |by destruct H as [_ ->]].
    cbv zeta in H. pose proof (upsert_all_prefix user (t :: l) (tags_table st)) as Hpre.
    destruct (upsert_all user (t :: l) (tags_table st)) as [[] tbl1];
      cbn [fst snd] in *.
    + destruct H as [Hres _]. by destruct (Hno _ Hres).
    + by destruct H as [_ ->].
  - cbv zeta in Hout. clear H.
    destruct run.1 as [[l|]|e]; [by destruct (Hno l)|done|done].
Qed.
End TagSyncEffects.

(** ** Logging in again, and synchronising after a login *)

Lemma Users_update_or_create_again k key name tbl tbl1 :
  Users.update_or_create k key name tbl = Returned tbl1 →
  Users.update_or_create k key name tbl1 = Returned tbl1.
Proof.
  intros Hup. pose proof (Users_update_or_create_one _ _ _ _ _ Hup) as Hone.
  unfold Users.update_or_create in *.
  rewrite update_or_create_unique by done. f_equal.
  apply fmap_fixed. intros r Hr. unfold Manager.update.
  case_decide as Hk; [|done].
  assert (r ∈ Manager.matching Users.user_id k tbl1) as Hm
    by by apply list_elem_of_filter.
  apply update_or_create_matching in Hup; [|done..].
  destruct Hup as [Hnew|(r0 & Hr0 & Hupd)].
  - rewrite Hnew in Hm. apply list_elem_of_singleton in Hm. by subst r.
  - rewrite Hupd in Hm. apply list_elem_of_singleton in Hm. by subst r.
Qed.

Section LoginAgain.
Variable encrypt_text : string → string.
Variable decrypt_text : string → string → string.

(** [login], case by case. *)
Lemma login_run api password st :
  let r := login_request (self st) password in
  let req := api_user_auth_local_login api r in
  let d := json_data req in
  let run := login encrypt_text api password st in
  sent run.2 = sent st ++ [r]
  ∧ tags_table run.2 = tags_table st
  ∧ if decide (status_code req = 200) then
      let s1 := set_username (data_username d)
                  (set_api_token (encrypt_text (data_apiToken d))
                     (set_hab_user_id (data_id d)
                        (set_return_code (status_code req) (self st)))) in
      match Users.update_or_create (data_id d)
              (encrypt_text (data_apiToken d)) (data_username d) (users st) with
      | Returned tbl =>
          run.1 = Returned true ∧ self run.2 = set_logged_in true s1
          ∧ users run.2 = tbl
      | Raised e => run.1 = Raised e ∧ self run.2 = s1 ∧ users run.2 = users st
      end
    else run.1 = Returned false
         ∧ self run.2 = set_return_code (status_code req) (self st)
         ∧ users run.2 = users st.
Proof.
  unfold login, login_request. run. case_decide as Hcode; [|done].
  cbn. by destruct (Users.update_or_create _ _ _ _).
Qed.

(** X15.  After a successful [login], on a store with unique tag ids,
    [get_user_tags] raises nothing whatever the server answers: the
    lookup of the session's user finds the row that the login saved. *)
Theorem login_then_tag_sync api api' cipher password st st1 :
  login encrypt_text api password st = (Returned true, st1) →
  unique_tag_ids st1 →
  ∃ v, (get_user_tags decrypt_text api' cipher st1).1 = Returned v.
Proof.
  intros (key & name & Hup & _)%login_success Hunique.
  apply Users_update_or_create_get in Hup.
  destruct (get_user_tags_run decrypt_text api' cipher st1) as (_ & _ & _ & H).
  case_decide; [|destruct H as [-> _]; eauto].
  rewrite Hup in H.
  destruct (json_data _) as [[|t l]|];
    [destruct H as [-> _]; eauto| |destruct H as [-> _]; eauto].
  cbv zeta in H. rewrite (upsert_all_total _ (t :: l) _ Hunique) in H.
  destruct H as [-> _]. eauto.
Qed.
End LoginAgain.

(** The cipher may answer one token with another ciphertext at every
    call: the two logins below run with the cipher as it answers at the
    first and at the second call. *)
Section LoginTwice.
Variable encrypt_text encrypt_text' : string → string.

(** X14.  Logging in a second time adds nothing: when the second answer
    has status 200 and the data of the first, [login] returns [True]
    again, the tables keep their size and the one row of the user holds
    the token as encrypted at the second call.  When that ciphertext is
    the one of the first call, the session and both tables are exactly as
    the first login left them. *)
Theorem login_again api api' password password' st st1 :
  login encrypt_text api password st = (Returned true, st1) →
  let first := api_user_auth_local_login api (login_request (self st) password) in
  let second :=
    api_user_auth_local_login api' (login_request (self st1) password') in
  let token := data_apiToken (json_data first) in
  let run := login encrypt_text' api' password' st1 in
  status_code second = 200 →
  json_data second = json_data first →
  run.1 = Returned true
  ∧ tags_table run.2 = tags_table st1
  ∧ length (users run.2) = length (users st1)
  ∧ api_token (self run.2) = encrypt_text' token
  ∧ Users.get (hab_user_id (self st1)) (users run.2)
    = Returned {| Users.user_id := hab_user_id (self st1);
                  Users.api_key := encrypt_text' token;
                  Users.username := username (self st1) |}
  ∧ (encrypt_text' token = encrypt_text token →
       self run.2 = self st1 ∧ users run.2 = users st1).
Proof.
  intros Hfirst first second token run Hcode' Hdata.
  destruct (login_run encrypt_text api password st) as (_ & _ & H1).
  destruct (login_run encrypt_text' api' password' st1) as (_ & Htags & H2).
  fold first in H1. fold second run in H2, Htags.
  rewrite Hfirst in H1. cbn [fst snd] in H1.
  destruct (decide (status_code first = 200)) as [Hcode|];
    [|by destruct H1 as [[=] _]].
  rewrite decide_True in H2 by done. cbv zeta in H2.
  destruct (Users.update_or_create _ _ _ (users st)) as [tbl|e] eqn:Hup;
    [|by destruct H1 as [[=] _]].
  destruct H1 as (_ & Hself & Husers). rewrite Hdata, Husers in H2.
  fold token in H2, Hself, Hup.
  pose proof (Users_update_or_create_one _ _ _ _ _ Hup) as Hone.
  destruct (Users.update_or_create _ (encrypt_text' token) _ tbl)
    as [tbl2|e] eqn:Hup2.
  2: { unfold Users.update_or_create in Hup2.
       rewrite update_or_create_unique in Hup2 by done. done. }
  destruct H2 as (Hres & Hself2 & Husers2).
  split; [done|]. split; [done|]. rewrite Husers2, Husers, Hself2, Hself.
  cbn [hab_user_id api_token username set_logged_in set_username
       set_api_token set_hab_user_id set_return_code].
  split; [by eapply Users_update_or_create_length|].
  split; [done|].
  split; [by eapply Users_update_or_create_get|].
  intros Hsame. rewrite Hsame in Hup2 |- *.
  rewrite (Users_update_or_create_again _ _ _ _ _ Hup) in Hup2.
  injection Hup2 as <-. by rewrite Hcode, Hcode'.
Qed.
End LoginTwice.

(** ** When the synchronisation raises *)

Section Raises.
Variable user : Users.row.

Lemma upsert_Raised t tbl :
  (∃ e, Tags.update_or_create (json_id t) user (unicode_escape (json_name t)) tbl
        = Raised e)
  ↔ (1 < length (Manager.matching Tags.tag_id (json_id t) tbl))%nat.
Proof.
  unfold Tags.update_or_create, Manager.update_or_create.
  destruct (Manager.matching Tags.tag_id (json_id t) tbl) as [|r [|r' m]]; cbn.
  - split; [by intros [e ?]|lia].
  - split; [by intros [e ?]|lia].
  - split; [lia|eauto].
Qed.

(** The first loop stops exactly when the table holds an id of the remote
    list in more than one row. *)
Lemma upsert_all_stops tags_json : ∀ tbl,
  (upsert_all user tags_json tbl).1 = false
  ↔ ∃ x, x ∈ json_id <$> tags_json
         ∧ (1 < length (Manager.matching Tags.tag_id x tbl))%nat.
Proof.
  induction tags_json as [|t rest IH]; intros tbl.
  - cbn. split; [done|]. by intros (x & ?%elem_of_nil & _).
  - cbn [upsert_all]. rewrite fmap_cons.
    destruct (Tags.update_or_create _ _ _ _) as [tbl1|e] eqn:Hup.
    + pose proof (upsert_matching user _ _ _ Hup) as Hone.
      pose proof (upsert_at_most_one user _ _ _ Hup) as Hmost.
      rewrite IH. split.
      * intros (x & Hx & Hlen). exists x. split; [by right|].
        destruct (decide (x = json_id t)) as [->|Hne].
        -- rewrite Hone in Hlen. cbn in Hlen. lia.
        -- by rewrite <- (upsert_other user _ _ _ _ Hne Hup).
      * intros (x & Hx & Hlen).
        destruct (decide (x = json_id t)) as [->|Hne]; [lia|].
        apply elem_of_cons in Hx as [?|Hx]; [done|].
        exists x. split; [done|].
        by rewrite (upsert_other user _ _ _ _ Hne Hup).
    + cbn. split; [|done]. intros _. exists (json_id t). split; [left|].
      apply upsert_Raised. eauto.
Qed.
End Raises.

Section TagSyncRaises.
Variable decrypt_text : string → string → string.
Variable api : habitica.
Variable cipher : string.

(** X16.  With the session's user in [Users] and a 200 answer carrying a
    non-empty list, [get_user_tags] raises exactly when some id of the
    list is held by more than one row of [Tags]; otherwise it returns the
    list. *)
Theorem tag_sync_raises_iff st user t l :
  Users.get (hab_user_id (self st)) (users st) = Returned user →
  let req := api_tags api (get_user_tags_request decrypt_text cipher (self st)) in
  let run := get_user_tags decrypt_text api cipher st in
  status_code req = 200 →
  json_data req = Some (t :: l) →
  ((∃ e, run.1 = Raised e)
   ↔ ∃ x, x ∈ json_id <$> t :: l
          ∧ (1 < length (Manager.matching Tags.tag_id x (tags_table st)))%nat)
  ∧ ((∀ e, run.1 ≠ Raised e) → run.1 = Returned (Data (t :: l))).
Proof.
  intros Hget req run Hcode Hdata.
  destruct (get_user_tags_run decrypt_text api cipher st) as (_ & _ & _ & H).
  fold req run in H. rewrite decide_True, Hget, Hdata in H by done.
  cbv zeta in H. rewrite <- (upsert_all_stops user).
  destruct (upsert_all user (t :: l) (tags_table st)) as [[] tbl1];
    cbn [fst snd] in *.
  - destruct H as [-> _]. split; [|intros _; reflexivity].
    split; [by intros [e ?]|done].
  - destruct H as [[e He] _]. split; [split; [done|eauto]|].
    intros Hno. by destruct (Hno e).
Qed.
End TagSyncRaises.

(** ** The credentials that travel *)

Section Credentials.
Variable encrypt_text : string → string.
Variable decrypt_text : string → string → string.
Variable CIPHER_FILE : string.
Variable isoformat : datetime → string.

(** X17.  When decrypting with the default key file undoes the
    encryption, every request that follows a successful [login] on the
    same session carries the credentials of the login answer: its header
    [x-api-user] is the returned id and its header [x-api-key] the
    returned token, in clear.  [login_api_key] and [get_user_tags] always
    send such a request; [create_task] and [edit_task] send theirs unless
    the due date overflows, and then they raise before it. *)
Theorem token_round_trip api api' password st st1 :
  (∀ token, decrypt_text (encrypt_text token) CIPHER_FILE = token) →
  login encrypt_text api password st = (Returned true, st1) →
  let d := json_data (api_user_auth_local_login api
                        (login_request (self st) password)) in
  let authenticated (r : request) :=
    header "x-api-user" (headers r) = Some (data_id d)
    ∧ header "x-api-key" (headers r) = Some (data_apiToken d) in
  let sends {A} (run : outcome A * state) :=
    ∃ r, sent run.2 = sent st1 ++ [r] ∧ authenticated r in
  let stops (run : outcome bool * state) :=
    task_days (self st1) > 0
    ∧ plus_days (clock st1) (task_days (self st1)) = Raised OverflowError
    ∧ run = (Raised OverflowError, st1) in
  sends (login_api_key decrypt_text CIPHER_FILE api' st1)
  ∧ (stops (create_task decrypt_text isoformat api' CIPHER_FILE st1)
     ∨ sends (create_task decrypt_text isoformat api' CIPHER_FILE st1))
  ∧ (stops (edit_task decrypt_text CIPHER_FILE isoformat api' st1)
     ∨ sends (edit_task decrypt_text CIPHER_FILE isoformat api' st1))
  ∧ sends (get_user_tags decrypt_text api' CIPHER_FILE st1).
Proof.
  intros Hcipher Hlogin d authenticated sends stops.
  destruct (login_run encrypt_text api password st) as (_ & _ & H).
  rewrite Hlogin in H. cbn [fst snd] in H. fold d in H.
  case_decide; [|by destruct H as [[=] _]]. cbv zeta in H.
  destruct (Users.update_or_create _ _ _ _); [|by destruct H as [[=] _]].
  destruct H as (_ & Hself & _).
  assert (hab_user_id (self st1) = data_id d) as Hid by by rewrite Hself.
  assert (decrypt_text (api_token (self st1)) CIPHER_FILE = data_apiToken d)
    as Htoken by (rewrite Hself; apply Hcipher).
  unfold sends, stops, authenticated. split_and!.
  - unfold login_api_key. run. rewrite Hid, Htoken.
    case_decide; cbn; [destruct (Users.update_or_create _ _ _ _)|];
      cbn; eexists; done.
  - destruct (due_date_cases isoformat st1) as [(Hdays & Hplus & Hdue)|[date Hdue]].
    + left. by rewrite (create_task_raises decrypt_text isoformat api'
                          CIPHER_FILE st1 _ Hdue).
    + right.
      destruct (create_task_sends decrypt_text isoformat api' CIPHER_FILE st1
                  _ Hdue) as (r & Hs & _ & _ & Hh & _).
      exists r. rewrite Hh, Hid, Htoken. done.
  - destruct (due_date_cases isoformat st1) as [(Hdays & Hplus & Hdue)|[date Hdue]].
    + left. by rewrite (edit_task_raises decrypt_text CIPHER_FILE isoformat
                          api' st1 _ Hdue).
    + right.
      destruct (edit_task_sends decrypt_text CIPHER_FILE isoformat api' st1
                  _ Hdue) as (r & Hs & _ & _ & Hh & _).
      exists r. rewrite Hh, Hid, Htoken. done.
  - destruct (get_user_tags_run decrypt_text api' CIPHER_FILE st1) as (-> & _).
    eexists. split; [done|]. unfold get_user_tags_request. cbn.
    by rewrite Hid, Htoken.
Qed.
End Credentials.

(** ** The codec loses nothing *)

Lemma hexdigit_inj a b :
  (a < 16)%N → (b < 16)%N → hexdigit a = hexdigit b → a = b.
Proof.
  unfold hexdigit. intros Ha Hb.
  destruct (N.ltb_spec a 10), (N.ltb_spec b 10); lia.
Qed.

Lemma length_hex digits : ∀ ch, length (hex digits ch) = digits.
Proof.
  induction digits as [|d IH]; intros ch; [done|]. cbn [hex].
  rewrite length_app, IH. cbn. lia.
Qed.

Lemma hex_inj digits : ∀ a b,
  hex digits a = hex digits b →
  (a mod 16 ^ N.of_nat digits = b mod 16 ^ N.of_nat digits)%N.
Proof.
  induction digits as [|d IH]; intros a b Heq.
  - cbn. by rewrite !N.mod_1_r.
  - cbn [hex] in Heq. apply app_inj_tail in Heq as [Hhigh Hlow].
    apply IH in Hhigh.
    apply hexdigit_inj in Hlow; [|by apply N.mod_lt..].
    rewrite Nat2N.inj_succ, N.pow_succ_r'.
    rewrite !N.Div0.mod_mul_r. by rewrite Hhigh, Hlow.
Qed.

Lemma hex_inj_small digits a b :
  (a < 16 ^ N.of_nat digits)%N → (b < 16 ^ N.of_nat digits)%N →
  hex digits a = hex digits b → a = b.
Proof.
  intros Ha Hb Heq%hex_inj. by rewrite !N.mod_small in Heq.
Qed.

Lemma escape_char_escaped ch : escaped ch (escape_char ch).
Proof.
  unfold escape_char.
  destruct (N.eqb_spec ch 92); [by constructor|].
  destruct (N.leb_spec 65536 ch); [by constructor|].
  destruct (N.leb_spec 256 ch); [by constructor|].
  destruct (N.eqb_spec ch 9); [by constructor|].
  destruct (N.eqb_spec ch 10); [by constructor|].
  destruct (N.eqb_spec ch 13); [by constructor|].
  destruct (N.ltb_spec ch 32); cbn [orb]; [constructor; lia|].
  destruct (N.leb_spec 127 ch); [constructor; lia|by constructor].
Qed.

Lemma hex_app_inj digits a b (x y : unicode) :
  (a < 16 ^ N.of_nat digits)%N → (b < 16 ^ N.of_nat digits)%N →
  hex digits a ++ x = hex digits b ++ y → a = b ∧ x = y.
Proof.
  intros Ha Hb Heq.
  apply app_inj_1 in Heq as [Hhex ->]; [|by rewrite !length_hex].
  split; [by eapply hex_inj_small|done].
Qed.

Lemma cons_eq {A} (x y : A) (l k : list A) : x :: l = y :: k → x = y ∧ l = k.
Proof. by intros [= -> ->]. Qed.

#[local] Opaque hex.

Ltac heads Heq :=
  do 2 (try (let Hhead := fresh "Hhead" in
             apply cons_eq in Heq as [Hhead Heq])).

Lemma escape_char_inj a b (x y : unicode) :
  code_point a → code_point b →
  escape_char a ++ x = escape_char b ++ y → a = b ∧ x = y.
Proof.
  unfold code_point. intros Ha Hb.
  destruct (escape_char_escaped a) as [?|?|?|?|?|?|?|?];
    destruct (escape_char_escaped b) as [?|?|?|?|?|?|?|?];
    cbn [app]; intros Heq; heads Heq;
    try discriminate; try (exfalso; lia); try (split; [lia|done]).
  - apply (hex_app_inj 8) in Heq; [done|cbn; lia..].
  - apply (hex_app_inj 4) in Heq; [done|cbn; lia..].
  - apply (hex_app_inj 2) in Heq; [done|cbn; lia..].
Qed.

#[local] Transparent hex.

Lemma escape_char_not_nil ch (x : unicode) : escape_char ch ++ x ≠ [].
Proof. by destruct (escape_char_escaped ch). Qed.

Lemma unicode_escape_inj s1 : ∀ s2,
  Forall code_point s1 → Forall code_point s2 →
  unicode_escape s1 = unicode_escape s2 → s1 = s2.
Proof.
  unfold unicode_escape.
  induction s1 as [|a s1 IH]; intros [|b s2] H1 H2 Heq; cbn in Heq.
  - done.
  - symmetry in Heq. by apply escape_char_not_nil in Heq.
  - by apply escape_char_not_nil in Heq.
  - apply Forall_cons in H1 as [Ha H1]. apply Forall_cons in H2 as [Hb H2].
    apply escape_char_inj in Heq as [-> Heq]; [|done..].
    f_equal. by apply IH.
Qed.

Section NamesKept.
Variable decrypt_text : string → string → string.
Variable api : habitica.
Variable cipher : string.

(** The row of a remote tag after a successful synchronisation. *)
Lemma get_user_tags_row st l st' pre t post :
  get_user_tags decrypt_text api cipher st = (Returned (Data l), st') →
  l = pre ++ t :: post →
  json_id t ∉ json_id <$> post →
  Manager.matching Tags.tag_id (json_id t) (tags_table st')
  = [tag_row (hab_user_id (self st)) t].
Proof.
  intros (user & _ & Huid & Hup & Htbl)%get_user_tags_Data -> Hlast.
  rewrite Htbl, matching_without, <- Huid.
  - by eapply upsert_all_last.
  - eapply upsert_all_unmatched; [done|apply covered_owned|].
    rewrite fmap_app, fmap_cons. apply elem_of_app. right. left.
Qed.

(** X18.  The stored text tells the remote names apart: after a
    successful synchronisation, two entries of the remote list (each the
    last of its id) whose rows hold the same text have the same name. *)
Theorem tag_sync_names_kept st l st' pre1 t1 post1 pre2 t2 post2 :
  get_user_tags decrypt_text api cipher st = (Returned (Data l), st') →
  l = pre1 ++ t1 :: post1 → json_id t1 ∉ json_id <$> post1 →
  l = pre2 ++ t2 :: post2 → json_id t2 ∉ json_id <$> post2 →
  Forall code_point (json_name t1) → Forall code_point (json_name t2) →
  Tags.tag_text <$> Manager.matching Tags.tag_id (json_id t1) (tags_table st')
  = Tags.tag_text <$> Manager.matching Tags.tag_id (json_id t2) (tags_table st') →
  json_name t1 = json_name t2.
Proof.
  intros Hrun Hl1 Hlast1 Hl2 Hlast2 Hcp1 Hcp2.
  rewrite (get_user_tags_row _ _ _ _ _ _ Hrun Hl1 Hlast1).
  rewrite (get_user_tags_row _ _ _ _ _ _ Hrun Hl2 Hlast2).
  cbn. intros [= Htext]. by apply unicode_escape_inj.
Qed.
End NamesKept.

(** ** No method looks at [logged_in] *)

Section NotLoggedIn.
Variable decrypt_text : string → string → string.
Variable CIPHER_FILE : string.
Variable isoformat : datetime → string.
Variable api : habitica.

Lemma add_update_tags_raises user tags_json : ∀ ids st,
  (upsert_all user tags_json (tags_table st)).1 = false →
  (add_update_tags user tags_json ids st).1 = Raised MultipleObjectsReturned.
Proof.
  induction tags_json as [|t rest IH]; intros ids st; [done|].
  cbn [add_update_tags upsert_all]. run.
  unfold Tags.update_or_create, Manager.update_or_create.
  destruct (Manager.matching Tags.tag_id (json_id t) (tags_table st))
    as [|r [|r' m]]; [| |done].
  - intros Hstop. by apply (IH _ (with_tags _ st)).
  - intros Hstop. by apply (IH _ (with_tags _ st)).
Qed.

(** The outcome of [get_user_tags], computed from the answer and the
    tables. *)
Lemma get_user_tags_outcome cipher st :
  let req := api_tags api (get_user_tags_request decrypt_text cipher (self st)) in
  (get_user_tags decrypt_text api cipher st).1
  = if decide (status_code req = 200) then
      match Users.get (hab_user_id (self st)) (users st) with
      | Raised e => Raised e
      | Returned user =>
          match json_data req with
          | Some (t :: l) =>
              if (upsert_all user (t :: l) (tags_table st)).1
              then Returned (Data (t :: l))
              else Raised MultipleObjectsReturned
          | _ => Returned False_
          end
      end
    else Returned False_.
Proof.
  intros req.
  destruct (get_user_tags_run decrypt_text api cipher st) as (_ & _ & _ & H).
  fold req in H. case_decide as Hcode; [|by destruct H].
  destruct (Users.get _ _) as [user|e] eqn:Hget; [|by destruct H].
  destruct (json_data req) as [[|t l]|] eqn:Hdata;
    [by destruct H| |by destruct H].
  cbv zeta in H.
  destruct (upsert_all user (t :: l) (tags_table st)) as [[] tbl1] eqn:Hup;
    cbn [fst snd] in *; [by destruct H|].
  clear H. unfold get_user_tags. run.
  fold (get_user_tags_request decrypt_text cipher (self st)).
  rewrite decide_True by done. run. cbn [hab_user_id set_return_code].
  rewrite Hget. unfold req in Hdata. rewrite Hdata.
  match goal with |- context [add_update_tags user (t :: l) ?ids ?s] =>
    pose proof (add_update_tags_raises user (t :: l) ids s) as Hraise;
    destruct (add_update_tags user (t :: l) ids s) as [o st1] end.
  cbn [tags_table fst snd] in Hraise. rewrite Hup in Hraise.
  by rewrite Hraise.
Qed.

(** X19.  [create_task], [edit_task] and [get_user_tags] do not look at
    [logged_in]: on a session that differs in that flag only they return
    the same, send the same request and leave the same tables. *)
Theorem logged_in_not_consulted cipher b st :
  let st_b := with_self (set_logged_in b (self st)) st in
  let same {A} (run_b run : outcome A * state) :=
    run_b.1 = run.1 ∧ sent run_b.2 = sent run.2
    ∧ users run_b.2 = users run.2 ∧ tags_table run_b.2 = tags_table run.2 in
  same (create_task decrypt_text isoformat api cipher st_b)
       (create_task decrypt_text isoformat api cipher st)
  ∧ same (edit_task decrypt_text CIPHER_FILE isoformat api st_b)
         (edit_task decrypt_text CIPHER_FILE isoformat api st)
  ∧ same (get_user_tags decrypt_text api cipher st_b)
         (get_user_tags decrypt_text api cipher st).
Proof.
  intros st_b same. unfold same. repeat split.
  1-4: unfold create_task; run; cbn; case_decide;
         [destruct (plus_days _ _); [|done]|]; cbn; case_decide; done.
  1-4: unfold edit_task; run; cbn; case_decide;
         [destruct (plus_days _ _); [|done]|]; cbn; case_decide; done.
  - by rewrite !get_user_tags_outcome.
  - destruct (get_user_tags_run decrypt_text api cipher st_b) as (-> & _).
    by destruct (get_user_tags_run decrypt_text api cipher st) as (-> & _).
  - destruct (get_user_tags_run decrypt_text api cipher st_b) as (_ & _ & -> & _).
    by destruct (get_user_tags_run decrypt_text api cipher st) as (_ & _ & -> & _).
  - destruct (get_user_tags_run decrypt_text api cipher st_b) as (_ & _ & _ & Hb).
    destruct (get_user_tags_run decrypt_text api cipher st) as (_ & _ & _ & H).
    change (get_user_tags_request decrypt_text cipher (self st_b))
      with (get_user_tags_request decrypt_text cipher (self st)) in Hb.
    change (hab_user_id (self st_b)) with (hab_user_id (self st)) in Hb.
    change (users st_b) with (users st) in Hb.
    change (tags_table st_b) with (tags_table st) in Hb.
    case_decide; [|destruct Hb as [_ ->]; by destruct H as [_ ->]].
    destruct (Users.get _ _) as [user|e];
      [|destruct Hb as [_ ->]; by destruct H as [_ ->]].
    destruct (json_data _) as [[|t l]|];
      [destruct Hb as [_ ->]; by destruct H as [_ ->]|
      |destruct Hb as [_ ->]; by destruct H as [_ ->]].
    cbv zeta in H, Hb.
    destruct (upsert_all user (t :: l) (tags_table st)) as [[] tbl1];
      cbn [fst snd] in *; destruct Hb as [_ ->]; by destruct H as [_ ->].
Qed.
End NotLoggedIn.

(** ** The further properties at work in the small world *)

Ltac keys_are_unique :=
  unfold unique_user_ids, unique_tag_ids;
  refine (bool_decide_unpack _ _); vm_compute; exact I.

(** [login_stores_credentials] on a first login of [u1]. *)
Lemma login_stores_credentials_witness :
  Users.get "u1" (users (login no_encrypt (server 200 None) "secret" fresh_store).2)
  = Returned {| Users.user_id := "u1"; Users.api_key := "token";
                Users.username := "kirska" |}.
Proof.
  set (st1 := (login no_encrypt (server 200 None) "secret" fresh_store).2).
  assert (login no_encrypt (server 200 None) "secret" fresh_store
          = (Returned true, st1)) as Hrun by (vm_compute; reflexivity).
  destruct (login_stores_credentials no_encrypt (server 200 None) "secret"
              fresh_store st1 Hrun) as (r & _ & _ & _ & _ & _ & _ & Hget).
  exact Hget.
Defined.

(** [login_api_key_stores_profile] on the session of [u1]. *)
Lemma login_api_key_stores_profile_witness :
  Users.get "u1"
    (users (login_api_key no_decrypt "key" (server 200 None) (store_u1 0)).2)
  = Returned {| Users.user_id := "u1"; Users.api_key := "token";
                Users.username := "Kirska" |}.
Proof.
  set (st1 := (login_api_key no_decrypt "key" (server 200 None) (store_u1 0)).2).
  assert (login_api_key no_decrypt "key" (server 200 None) (store_u1 0)
          = (Returned true, st1)) as Hrun by (vm_compute; reflexivity).
  destruct (login_api_key_stores_profile no_decrypt "key" (server 200 None)
              (store_u1 0) st1 Hrun) as (r & _ & _ & _ & _ & _ & _ & Hget).
  exact Hget.
Defined.

(** [login_raises] on a table that holds the row of [u1] twice. *)
Lemma login_raises_witness :
  (login no_encrypt (server 200 None) "secret" store_two_rows).1
  = Raised MultipleObjectsReturned.
Proof.
  destruct (login_raises no_encrypt (server 200 None) "secret" store_two_rows)
    as (r & _ & Hiff & Hthen).
  apply Hthen. apply Hiff. split; [reflexivity|]. vm_compute. lia.
Defined.

(** [date_field_iff] on a task of minus two days. *)
Lemma date_field_iff_witness :
  task_days (self (store_u1 (-2))) <= 0
  ∧ ∃ r b,
      (edit_task no_decrypt "key" count_isoformat (server 200 None)
         (store_u1 (-2))).1 = Returned b
      ∧ sent (edit_task no_decrypt "key" count_isoformat (server 200 None)
                (store_u1 (-2))).2 = sent (store_u1 (-2)) ++ [r]
      ∧ field "date" (data r) = None.
Proof.
  assert (task_days (self (store_u1 (-2))) <= 0) as Hdays by (cbn; lia).
  split; [exact Hdays|].
  exact (proj2 (proj1 (date_field_iff no_decrypt "key" count_isoformat
                         (server 200 None) "key" (store_u1 (-2))) Hdays)).
Defined.


(** [tag_sync_other_users] where [u2] owns the tags 1 and 4 and [u1]
    synchronises with the remote tags 1 and 2. *)
Lemma tag_sync_other_users_witness :
  let st' := (get_user_tags no_decrypt (server 200 (Some home_and_work)) "key"
                shared_store).2 in
  local_tag_ids "u2" st'
  = local_tag_ids "u2" shared_store
    ∖ (remote_tag_ids home_and_work ∪ local_tag_ids "u1" shared_store).
Proof.
  intros st'.
  assert (get_user_tags no_decrypt (server 200 (Some home_and_work)) "key"
            shared_store = (Returned (Data home_and_work), st')) as Hrun
    by (vm_compute; reflexivity).
  apply (tag_sync_other_users no_decrypt (server 200 (Some home_and_work)) "key"
           shared_store home_and_work st' "u2" Hrun).
  discriminate.
Defined.

(** [tag_sync_succeeds] on the store of [u1]. *)
Lemma tag_sync_succeeds_witness :
  (get_user_tags no_decrypt (server 200 (Some home_and_work)) "key" (store_u1 0)).1
  = Returned (Data home_and_work).
Proof.
  apply (tag_sync_succeeds no_decrypt (server 200 (Some home_and_work)) "key"
           (store_u1 0)
           {| Users.user_id := "u1"; Users.api_key := "token";
              Users.username := "kirska" |}).
  - keys_are_unique.
  - reflexivity.
Defined.

(** [store_stays_unique] on the store of [u1]. *)
Lemma store_stays_unique_witness :
  unique_tag_ids
    (get_user_tags no_decrypt (server 200 (Some home_and_work)) "key"
       (store_u1 0)).2
  ∧ unique_user_ids (login no_encrypt (server 200 None) "secret" (store_u1 0)).2.
Proof.
  destruct (store_stays_unique no_decrypt (server 200 None) "key" no_encrypt
              "key" count_isoformat "secret" (store_u1 0))
    as ([Hlogin _] & _).
  { keys_are_unique. }
  { keys_are_unique. }
  destruct (store_stays_unique no_decrypt (server 200 (Some home_and_work))
              "key" no_encrypt "key" count_isoformat "secret" (store_u1 0))
    as (_ & _ & _ & _ & _ & Htags).
  { keys_are_unique. }
  { keys_are_unique. }
  exact (conj Htags Hlogin).
Defined.

(** [tag_sync_announces] on the store of [u1]: the tag 3 is announced. *)
Lemma tag_sync_announces_witness :
  let st' := (get_user_tags no_decrypt (server 200 (Some home_and_work)) "key"
                (store_u1 0)).2 in
  ∃ ids, stdout st' = stdout (store_u1 0) ++ (deleting <$> ids)
    ∧ list_to_set ids
      = local_tag_ids "u1" (store_u1 0) ∖ remote_tag_ids home_and_work.
Proof.
  intros st'.
  apply (tag_sync_announces no_decrypt (server 200 (Some home_and_work)) "key"
           (store_u1 0) home_and_work st').
  vm_compute. reflexivity.
Defined.

(** [tag_sync_text_printable] on the remote tag café. *)
Lemma tag_sync_text_printable_witness : Forall printable (u "caf\xe9").
Proof.
  set (st' := (get_user_tags no_decrypt (server 200 (Some [cafe])) "key"
                 (store_u1 0)).2).
  assert (get_user_tags no_decrypt (server 200 (Some [cafe])) "key" (store_u1 0)
          = (Returned (Data [cafe]), st')) as Hrun by (vm_compute; reflexivity).
  refine (proj2 (tag_sync_text_printable no_decrypt (server 200 (Some [cafe]))
                   "key" (store_u1 0) [cafe] st'
                   {| Tags.tag_id := "1"; Tags.tag_owner := "u1";
                      Tags.tag_text := u "caf\xe9" |} Hrun _ _)).
  - apply list_elem_of_In. vm_compute. left. reflexivity.
  - apply list_elem_of_In. vm_compute. left. reflexivity.
Defined.

(** [tag_sync_no_list_no_deletion] on a run that raises at its second
    entry: the tags 2, 3, 5 and 5 are still there, before the new tag 1. *)
Lemma tag_sync_no_list_no_deletion_witness :
  let run := get_user_tags no_decrypt (server 200 (Some home_and_five)) "key"
               store_duplicate_tag in
  (Tags.tag_id <$> tags_table store_duplicate_tag)
    `prefix_of` (Tags.tag_id <$> tags_table run.2)
  ∧ stdout run.2 = stdout store_duplicate_tag
  ∧ users run.2 = users store_duplicate_tag.
Proof.
  apply (tag_sync_no_list_no_deletion no_decrypt
           (server 200 (Some home_and_five)) "key" store_duplicate_tag).
  intros l Hrun. vm_compute in Hrun. discriminate.
Defined.

(** [login_again] on two logins of [u1] with the same answer, the second
    with a cipher that answers otherwise. *)
Lemma login_again_witness :
  let st1 := (login no_encrypt (server 200 None) "secret" fresh_store).2 in
  let run := login encrypt_again (server 200 None) "secret" st1 in
  run.1 = Returned true
  ∧ length (users run.2) = length (users st1)
  ∧ Users.get "u1" (users run.2)
    = Returned {| Users.user_id := "u1"; Users.api_key := "again:token";
                  Users.username := "kirska" |}.
Proof.
  intros st1 run.
  assert (login no_encrypt (server 200 None) "secret" fresh_store
          = (Returned true, st1)) as Hrun by (vm_compute; reflexivity).
  destruct (login_again no_encrypt encrypt_again (server 200 None)
              (server 200 None) "secret" "secret" fresh_store st1 Hrun
              eq_refl eq_refl) as (Hres & _ & Hlen & _ & Hget & _).
  exact (conj Hres (conj Hlen Hget)).
Defined.

(** [login_then_tag_sync] on a first login of [u1]. *)
Lemma login_then_tag_sync_witness :
  let st1 := (login no_encrypt (server 200 None) "secret" fresh_store).2 in
  ∃ v, (get_user_tags no_decrypt (server 200 (Some home_and_work)) "key" st1).1
       = Returned v.
Proof.
  intros st1.
  assert (login no_encrypt (server 200 None) "secret" fresh_store
          = (Returned true, st1)) as Hrun by (vm_compute; reflexivity).
  apply (login_then_tag_sync no_encrypt no_decrypt (server 200 None)
           (server 200 (Some home_and_work)) "key" "secret" fresh_store st1 Hrun).
  keys_are_unique.
Defined.

(** [tag_sync_raises_iff] on the store where two rows hold the tag 5. *)
Lemma tag_sync_raises_iff_witness :
  ∃ e, (get_user_tags no_decrypt (server 200 (Some home_and_five)) "key"
          store_duplicate_tag).1 = Raised e.
Proof.
  destruct (tag_sync_raises_iff no_decrypt (server 200 (Some home_and_five))
              "key" store_duplicate_tag
              {| Users.user_id := "u1"; Users.api_key := "token";
                 Users.username := "kirska" |}
              {| json_id := "1"; json_name := u "home" |}
              [ {| json_id := "5"; json_name := u "shop" |} ]
              eq_refl eq_refl eq_refl) as [Hiff _].
  apply Hiff. exists "5". split.
  - apply list_elem_of_In. vm_compute. right. left. reflexivity.
  - vm_compute. lia.
Defined.

(** [token_round_trip] with the cipher that changes nothing. *)
Lemma token_round_trip_witness :
  let st1 := (login no_encrypt (server 200 None) "secret" fresh_store).2 in
  ∃ r, sent (get_user_tags no_decrypt (server 200 None) "key" st1).2
         = sent st1 ++ [r]
       ∧ header "x-api-user" (headers r) = Some "u1"
       ∧ header "x-api-key" (headers r) = Some "token".
Proof.
  intros st1.
  assert (login no_encrypt (server 200 None) "secret" fresh_store
          = (Returned true, st1)) as Hrun by (vm_compute; reflexivity).
  destruct (token_round_trip no_encrypt no_decrypt "key" count_isoformat
              (server 200 None) (server 200 None) "secret" fresh_store st1
              (λ token, eq_refl) Hrun) as (_ & _ & _ & Htags).
  exact Htags.
Defined.

(** [tag_sync_names_kept] on two remote tags called home. *)
Lemma tag_sync_names_kept_witness :
  json_name {| json_id := "1"; json_name := u "home" |}
  = json_name {| json_id := "7"; json_name := u "home" |}.
Proof.
  set (st' := (get_user_tags no_decrypt (server 200 (Some two_homes)) "key"
                 (store_u1 0)).2).
  assert (get_user_tags no_decrypt (server 200 (Some two_homes)) "key"
            (store_u1 0) = (Returned (Data two_homes), st')) as Hrun
    by (vm_compute; reflexivity).
  apply (tag_sync_names_kept no_decrypt (server 200 (Some two_homes)) "key"
           (store_u1 0) two_homes st'
           [] {| json_id := "1"; json_name := u "home" |}
           [ {| json_id := "7"; json_name := u "home" |} ]
           [ {| json_id := "1"; json_name := u "home" |} ]
           {| json_id := "7"; json_name := u "home" |} [] Hrun).
  - reflexivity.
  - intros Hin. apply list_elem_of_In in Hin. vm_compute in Hin.
    destruct Hin as [Hin|[]]. discriminate.
  - reflexivity.
  - apply not_elem_of_nil.
  - cbn.
    repeat (apply Forall_cons_2; [unfold code_point; lia|]). apply Forall_nil_2.
  - cbn.
    repeat (apply Forall_cons_2; [unfold code_point; lia|]). apply Forall_nil_2.
  - vm_compute. reflexivity.
Defined.
